(** * A contact directory with validated phones and birthdays

    Shallow embedding of [main.py]: the field validators, [Record],
    [AddressBook], the birthday-window query and the command handlers,
    followed by the properties of the specification that were checked
    against them.

    Python values are modelled as follows.
    - [str] is a sequence of Unicode code points, so a character is a
      number ([N]); literals are written with [u "..."].
    - A raised exception is a value of [exn]; code that can raise and
      mutate runs in the state-and-exception monad [M], whose result
      carries the state reached when the exception left the call.
    - The [dict] of [UserDict] is an association list in insertion order.
    - [datetime] is a record of its seven fields. *)

From Stdlib Require Import ZArith NArith String Ascii List Bool Lia.
Import ListNotations.

Local Open Scope N_scope.

(** ** Strings *)

Definition char := N.
Definition str := list char.

(** The code points of an ASCII literal. *)
Definition u (s : string) : str := map N_of_ascii (list_ascii_of_string s).

Fixpoint str_eqb (a b : str) : bool :=
  match a, b with
  | [], [] => true
  | x :: a', y :: b' => (x =? y) && str_eqb a' b'
  | _, _ => false
  end.

Definition NEWLINE : char := 10.
Definition SPACE : char := 32.
Definition DOT : char := 46.

(** ** Exceptions and results *)

Inductive exn : Type :=
| ValueError (msg : string)
| KeyError (msg : string)
| IndexError.

Inductive result (A : Type) : Type :=
| Ok (a : A)
| Raise (e : exn).
Arguments Ok {A} a.
Arguments Raise {A} e.

(** ** Unicode decimal digits

    In a [str] pattern, [\d] matches every character of Unicode category
    Nd, and [int] reads each of them as its decimal value.  Category Nd is
    made of runs of ten characters, a zero followed by one to nine;
    [Nd_zeros] lists the zero of every run (Unicode 14.0, the table of
    CPython 3.11).  The theorems below use of this table only that it
    contains the ASCII digits and no other character below 128. *)

Definition Nd_zeros : list char :=
  [ 0x30; 0x660; 0x6f0; 0x7c0; 0x966; 0x9e6; 0xa66; 0xae6; 0xb66; 0xbe6;
    0xc66; 0xce6; 0xd66; 0xde6; 0xe50; 0xed0; 0xf20; 0x1040; 0x1090;
    0x17e0; 0x1810; 0x1946; 0x19d0; 0x1a80; 0x1a90; 0x1b50; 0x1bb0;
    0x1c40; 0x1c50; 0xa620; 0xa8d0; 0xa900; 0xa9d0; 0xa9f0; 0xaa50;
    0xabf0; 0xff10; 0x104a0; 0x10d30; 0x11066; 0x110f0; 0x11136; 0x111d0;
    0x112f0; 0x11450; 0x114d0; 0x11650; 0x116c0; 0x11730; 0x118e0;
    0x11950; 0x11c50; 0x11d50; 0x11da0; 0x16a60; 0x16ac0; 0x16b50;
    0x1d7ce; 0x1d7d8; 0x1d7e2; 0x1d7ec; 0x1d7f6; 0x1e140; 0x1e2f0;
    0x1e950; 0x1fbf0 ].

(** The decimal value of a character, if it is a decimal digit. *)
Fixpoint decimal_in (zeros : list char) (c : char) : option N :=
  match zeros with
  | [] => None
  | z :: zeros' =>
      if (z <=? c) && (c <? z + 10) then Some (c - z)
      else decimal_in zeros' c
  end.

Definition decimal (c : char) : option N := decimal_in Nd_zeros c.

Definition is_decimal (c : char) : bool :=
  match decimal c with Some _ => true | None => false end.

Definition is_ascii_digit (c : char) : bool := (48 <=? c) && (c <=? 57).

(** ** The regular expression of [Phone.validate]

    [re.match(r'^\d{10}$', value)] anchors the match at the start of
    [value].  Without [re.MULTILINE], [^] holds only at the start of the
    string, and [$] holds at the end of the string and also just before a
    newline that is the last character of the string. *)

Inductive re_item : Type :=
| Bol          (* ^ *)
| Eol          (* $ *)
| Digit.       (* \d *)

Definition at_eol (s : str) : bool :=
  match s with
  | [] => true
  | [c] => c =? NEWLINE
  | _ => false
  end.

Fixpoint re_match_here (p : list re_item) (at_start : bool) (s : str) : bool :=
  match p with
  | [] => true
  | Bol :: p' => at_start && re_match_here p' at_start s
  | Eol :: p' => at_eol s && re_match_here p' at_start s
  | Digit :: p' =>
      match s with
      | c :: s' => is_decimal c && re_match_here p' false s'
      | [] => false
      end
  end.

Definition re_match (p : list re_item) (s : str) : bool :=
  re_match_here p true s.

(** [r'^\d{10}$'] *)
Definition phone_pattern : list re_item := [Bol] ++ repeat Digit 10 ++ [Eol].

(** ** Fields *)

Record Name : Type := mkName { name_value : str }.
Record Phone : Type := mkPhone { phone_value : str }.

Definition phone_error : exn := ValueError "Phone number must be 10 digits".

(** [Phone.validate] *)
Definition Phone_validate (value : str) : result str :=
  if re_match phone_pattern value then Ok value else Raise phone_error.

(** [Phone.__init__] *)
Definition Phone_init (value : str) : result Phone :=
  match Phone_validate value with
  | Ok v => Ok (mkPhone v)
  | Raise e => Raise e
  end.

Local Close Scope N_scope.
Local Open Scope Z_scope.

(** ** [datetime]

    The fields of [datetime.datetime]; the constructor checks them as
    [_check_date_fields] and [_check_time_fields] do.  (The message for a
    year out of range also prints the year; it is never shown, since
    [Birthday.validate] replaces it.) *)

Record datetime : Type := mkDatetime {
  year : Z; month : Z; day : Z;
  hour : Z; minute : Z; second : Z; microsecond : Z }.

Definition is_leap (y : Z) : bool :=
  (y mod 4 =? 0) && (negb (y mod 100 =? 0) || (y mod 400 =? 0)).

Definition days_in_month (y m : Z) : Z :=
  if m =? 2 then (if is_leap y then 29 else 28)
  else if (m =? 4) || (m =? 6) || (m =? 9) || (m =? 11) then 30
  else 31.

Definition days_before_year (y : Z) : Z :=
  let y1 := y - 1 in y1 * 365 + y1 / 4 - y1 / 100 + y1 / 400.

(** Days of the year before the first day of month [m]. *)
Definition days_before_month (y m : Z) : Z :=
  fold_right Z.add 0
    (map (days_in_month y) (map Z.of_nat (seq 1 (Z.to_nat (m - 1))))).

Definition ymd2ord (y m d : Z) : Z :=
  days_before_year y + days_before_month y m + d.

Definition toordinal (d : datetime) : Z := ymd2ord (year d) (month d) (day d).

Definition in_range (lo x hi : Z) : bool := (lo <=? x) && (x <=? hi).

Definition check_date_fields (y m d : Z) : result unit :=
  if negb (in_range 1 y 9999) then Raise (ValueError "year is out of range")
  else if negb (in_range 1 m 12) then Raise (ValueError "month must be in 1..12")
  else if negb (in_range 1 d (days_in_month y m))
       then Raise (ValueError "day is out of range for month")
  else Ok tt.

Definition check_time_fields (h mi s us : Z) : result unit :=
  if negb (in_range 0 h 23) then Raise (ValueError "hour must be in 0..23")
  else if negb (in_range 0 mi 59) then Raise (ValueError "minute must be in 0..59")
  else if negb (in_range 0 s 59) then Raise (ValueError "second must be in 0..59")
  else if negb (in_range 0 us 999999)
       then Raise (ValueError "microsecond must be in 0..999999")
  else Ok tt.

(** [datetime(y, m, d, h, mi, s, us)] *)
Definition datetime_new (y m d h mi s us : Z) : result datetime :=
  match check_date_fields y m d with
  | Raise e => Raise e
  | Ok _ =>
      match check_time_fields h mi s us with
      | Raise e => Raise e
      | Ok _ => Ok (mkDatetime y m d h mi s us)
      end
  end.

(** A value built by the constructor. *)
Definition valid_datetime (d : datetime) : Prop :=
  datetime_new (year d) (month d) (day d)
               (hour d) (minute d) (second d) (microsecond d) = Ok d.

(** [self.replace(year=y)]: a new object built by the constructor, which
    checks the new combination of fields. *)
Definition datetime_replace_year (self : datetime) (y : Z) : result datetime :=
  datetime_new y (month self) (day self)
               (hour self) (minute self) (second self) (microsecond self).

(** [timedelta], normalised as its constructor does: the sign is carried
    by [td_days], and [0 <= td_seconds < 86400],
    [0 <= td_microseconds < 1000000].  The constructor's bound on the
    number of days (999999999) is out of reach of two dates with years in
    1..9999. *)
Record timedelta : Type := mkTimedelta {
  td_days : Z; td_seconds : Z; td_microseconds : Z }.

Definition timedelta_new (days seconds microseconds : Z) : timedelta :=
  let total := (days * 86400 + seconds) * 1000000 + microseconds in
  let secs := total / 1000000 in
  mkTimedelta (secs / 86400) (secs mod 86400) (total mod 1000000).

Definition seconds_of_day (d : datetime) : Z :=
  second d + minute d * 60 + hour d * 3600.

(** [self - other] for two naive datetimes. *)
Definition datetime_sub (self other : datetime) : timedelta :=
  timedelta_new (toordinal self - toordinal other)
                (seconds_of_day self - seconds_of_day other)
                (microsecond self - microsecond other).

(** ** [datetime.strptime(value, '%d.%m.%Y')]

    [_strptime] turns the format into the regular expression
    [(?P<d>3[0-1]|[1-2]\d|0[1-9]|[1-9]| [1-9])\.(?P<m>1[0-2]|0[1-9]|[1-9])\.(?P<Y>\d\d\d\d)],
    matches it at the start of the text, and requires the match to end at
    the end of the text.  The alternatives of a group are tried in order,
    with backtracking: [strptime_matches] lists the ways to match in the
    order the engine finds them, and the first one is the match. *)

Inductive cls : Type :=
| Lit (c : char)
| InRange (lo hi : char)
| AnyDigit.

Definition cls_match (k : cls) (c : char) : bool :=
  match k with
  | Lit x => (c =? x)%N
  | InRange lo hi => ((lo <=? c) && (c <=? hi))%N
  | AnyDigit => is_decimal c
  end.

(** Match a sequence of classes as a prefix: the matched text and the rest. *)
Fixpoint match_seq (ks : list cls) (s : str) : option (str * str) :=
  match ks with
  | [] => Some ([], s)
  | k :: ks' =>
      match s with
      | c :: s' =>
          if cls_match k c then
            match match_seq ks' s' with
            | Some (t, r) => Some (c :: t, r)
            | None => None
            end
          else None
      | [] => None
      end
  end.

Definition group (alts : list (list cls)) (s : str) : list (str * str) :=
  flat_map (fun a => match match_seq a s with Some x => [x] | None => [] end)
           alts.

Definition literal (c : char) (s : str) : list str :=
  match s with
  | x :: s' => if (x =? c)%N then [s'] else []
  | [] => []
  end.

Definition re_d : list (list cls) :=
  [ [Lit 51; InRange 48 49];        (* 3[0-1] *)
    [InRange 49 50; AnyDigit];      (* [1-2]\d *)
    [Lit 48; InRange 49 57];        (* 0[1-9] *)
    [InRange 49 57];                (* [1-9] *)
    [Lit SPACE; InRange 49 57] ]%N. (* space, then [1-9] *)

Definition re_m : list (list cls) :=
  [ [Lit 49; InRange 48 50];        (* 1[0-2] *)
    [Lit 48; InRange 49 57];        (* 0[1-9] *)
    [InRange 49 57] ]%N.            (* [1-9] *)

Definition re_Y : list (list cls) :=
  [ [AnyDigit; AnyDigit; AnyDigit; AnyDigit] ].

(** The groups d, m, Y of a match and the text left after it. *)
Definition strptime_matches (s : str) : list (str * str * str * str) :=
  flat_map (fun dr : str * str =>
    flat_map (fun r2 =>
      flat_map (fun mr : str * str =>
        flat_map (fun r4 =>
          map (fun yr : str * str => (fst dr, fst mr, fst yr, snd yr))
              (group re_Y r4))
          (literal DOT (snd mr)))
        (group re_m r2))
      (literal DOT (snd dr)))
    (group re_d s).

(** The texts a sequence of classes, and a group, match in full. *)
Definition cls_matches (a : list cls) (t : str) : Prop :=
  Forall2 (fun k c => cls_match k c = true) a t.

Definition group_text (alts : list (list cls)) (t : str) : Prop :=
  exists a, In a alts /\ cls_matches a t.

(** [int(text)] for a text made of decimal digits after optional spaces. *)
Fixpoint int_digits (acc : N) (t : str) : option N :=
  match t with
  | [] => Some acc
  | c :: t' =>
      match decimal c with
      | Some v => int_digits (10 * acc + v) t'
      | None => None
      end
  end.

Fixpoint lstrip (t : str) : str :=
  match t with
  | c :: t' => if (c =? SPACE)%N then lstrip t' else t
  | [] => []
  end.

Definition py_int (t : str) : option Z :=
  match lstrip t with
  | [] => None
  | t' => option_map Z.of_N (int_digits 0 t')
  end.

Definition strptime_dmY (value : str) : result datetime :=
  match strptime_matches value with
  | [] => Raise (ValueError "time data does not match format")
  | (d, m, y, rest) :: _ =>
      match rest with
      | _ :: _ => Raise (ValueError "unconverted data remains")
      | [] =>
          match py_int y, py_int m, py_int d with
          | Some yy, Some mm, Some dd => datetime_new yy mm dd 0 0 0 0
          | _, _, _ => Raise (ValueError "invalid literal for int()")
          end
      end
  end.

(** A text written as DD.MM.YYYY, and the number an ASCII digit stands for. *)
Definition dd_mm_yyyy (d1 d2 m1 m2 y1 y2 y3 y4 : char) : str :=
  [d1; d2; DOT; m1; m2; DOT; y1; y2; y3; y4].

Definition digit_value (c : char) : Z := Z.of_N c - 48.

(** ** [strftime('%d.%m.%Y')]

    [%d] and [%m] are two digits.  [%Y] is left to the C library: it
    writes a year below 1000 with four digits on some platforms and
    without leading zeros on others; [pad_year] says which. *)

Definition digit_char (n : Z) : char := Z.to_N (48 + n).

Definition two_digits (n : Z) : str :=
  [digit_char (n / 10); digit_char (n mod 10)].

Definition four_digits (n : Z) : str :=
  [digit_char (n / 1000); digit_char ((n / 100) mod 10);
   digit_char ((n / 10) mod 10); digit_char (n mod 10)].

Fixpoint strip_zeros (t : str) : str :=
  match t with
  | c :: (_ :: _) as t' => if (c =? 48)%N then strip_zeros t' else t
  | _ => t
  end.

Definition year_text (pad_year : bool) (y : Z) : str :=
  if pad_year then four_digits y else strip_zeros (four_digits y).

Definition strftime_dmY (pad_year : bool) (d : datetime) : str :=
  two_digits (day d) ++ [DOT] ++ two_digits (month d) ++ [DOT]
  ++ year_text pad_year (year d).

(** ** [Birthday] *)

Record Birthday : Type := mkBirthday { birthday_value : datetime }.

Definition birthday_error : exn :=
  ValueError "Invalid date format. Use DD.MM.YYYY".

(** [Birthday.validate] *)
Definition Birthday_validate (value : str) : result datetime :=
  match strptime_dmY value with
  | Ok birthday => Ok birthday
  | Raise (ValueError _) => Raise birthday_error
  | Raise e => Raise e
  end.

(** [Birthday.__init__] *)
Definition Birthday_init (value : str) : result Birthday :=
  match Birthday_validate value with
  | Ok v => Ok (mkBirthday v)
  | Raise e => Raise e
  end.

(** ** Calls that raise and mutate

    A call on an object of state [S] returns a value or raises, and leaves
    the object in a new state either way: an exception does not undo the
    mutations made before it. *)

Definition M (S A : Type) : Type := S -> result A * S.

Definition ret {S A} (a : A) : M S A := fun s => (Ok a, s).

Definition raise {S A} (e : exn) : M S A := fun s => (Raise e, s).

Definition bind {S A B} (m : M S A) (k : A -> M S B) : M S B :=
  fun s =>
    match m s with
    | (Ok a, s') => k a s'
    | (Raise e, s') => (Raise e, s')
    end.

Definition get {S} : M S S := fun s => (Ok s, s).

Definition modify {S} (f : S -> S) : M S unit := fun s => (Ok tt, f s).

(** A pure computation that may raise, run inside a call. *)
Definition lift {S A} (r : result A) : M S A := fun s => (r, s).

Declare Scope py_scope.
Delimit Scope py_scope with py.
Notation "x <- m ;; k" := (bind m (fun x => k))
  (at level 100, m at next level, right associativity) : py_scope.
Notation "m ;;; k" := (bind m (fun _ => k))
  (at level 100, right associativity) : py_scope.
Local Open Scope py_scope.

(** ** [Record] *)

Record Record_ : Type := mkRecord {
  name : Name;
  phones : list Phone;
  birthday : option Birthday }.

(** [Record.__init__] *)
Definition Record_init (name : str) : Record_ := mkRecord (mkName name) [] None.

Definition set_phones (ps : list Phone) (self : Record_) : Record_ :=
  mkRecord (name self) ps (birthday self).

Definition set_birthday (b : option Birthday) (self : Record_) : Record_ :=
  mkRecord (name self) (phones self) b.

(** [Record.add_phone]: [Phone(phone)] is built, and so validated, before
    [append] is called. *)
Definition Record_add_phone (phone : str) : M Record_ unit :=
  p <- lift (Phone_init phone) ;;
  modify (fun self => set_phones (phones self ++ [p]) self).

(** The loop of [Record.remove_phone]: the list without the first phone
    whose value is [phone], if there is one. *)
Fixpoint remove_first (phone : str) (ps : list Phone) : option (list Phone) :=
  match ps with
  | [] => None
  | p :: ps' =>
      if str_eqb (phone_value p) phone then Some ps'
      else option_map (cons p) (remove_first phone ps')
  end.

(** [Record.remove_phone] *)
Definition Record_remove_phone (phone : str) : M Record_ bool :=
  self <- get ;;
  match remove_first phone (phones self) with
  | Some ps => modify (set_phones ps) ;;; ret true
  | None => ret false
  end.

(** The loop of [Record.edit_phone]: at the first phone whose value is
    [old_phone], [Phone(new_phone)] is built (and validated) and its value
    assigned to that phone object; nothing is built when no phone matches. *)
Fixpoint edit_first (old_phone new_phone : str) (ps : list Phone)
  : result (option (list Phone)) :=
  match ps with
  | [] => Ok None
  | p :: ps' =>
      if str_eqb (phone_value p) old_phone then
        match Phone_init new_phone with
        | Ok q => Ok (Some (mkPhone (phone_value q) :: ps'))
        | Raise e => Raise e
        end
      else
        match edit_first old_phone new_phone ps' with
        | Ok (Some l) => Ok (Some (p :: l))
        | Ok None => Ok None
        | Raise e => Raise e
        end
  end.

(** [Record.edit_phone] *)
Definition Record_edit_phone (old_phone new_phone : str) : M Record_ bool :=
  self <- get ;;
  r <- lift (edit_first old_phone new_phone (phones self)) ;;
  match r with
  | Some ps => modify (set_phones ps) ;;; ret true
  | None => ret false
  end.

(** [Record.find_phone] *)
Definition Record_find_phone (phone : str) (self : Record_) : option Phone :=
  find (fun p => str_eqb (phone_value p) phone) (phones self).

(** [Record.add_birthday] *)
Definition Record_add_birthday (text : str) : M Record_ unit :=
  b <- lift (Birthday_init text) ;;
  modify (set_birthday (Some b)).

Fixpoint join (sep : str) (parts : list str) : str :=
  match parts with
  | [] => []
  | [x] => x
  | x :: rest => x ++ sep ++ join sep rest
  end.

(** [Record.__str__] *)
Definition Record_str (pad_year : bool) (self : Record_) : str :=
  let phones := join (u ", ") (map phone_value (phones self)) in
  let birthday :=
    match birthday self with
    | Some b => strftime_dmY pad_year (birthday_value b)
    | None => u "N/A"
    end in
  u "Contact name: " ++ name_value (name self) ++ u ", phones: " ++ phones
  ++ u ", birthday: " ++ birthday.

(** ** [dict], in insertion order *)

Definition dict (V : Type) : Type := list (str * V).

Fixpoint dict_get {V} (k : str) (d : dict V) : option V :=
  match d with
  | [] => None
  | (k', v) :: d' => if str_eqb k' k then Some v else dict_get k d'
  end.

(** [d[k] = v]: the value of an existing key is replaced where it stands,
    a new key goes to the end. *)
Fixpoint dict_set {V} (k : str) (v : V) (d : dict V) : dict V :=
  match d with
  | [] => [(k, v)]
  | (k', v') :: d' =>
      if str_eqb k' k then (k', v) :: d' else (k', v') :: dict_set k v d'
  end.

(** [del d[k]] *)
Fixpoint dict_del {V} (k : str) (d : dict V) : dict V :=
  match d with
  | [] => []
  | (k', v') :: d' => if str_eqb k' k then d' else (k', v') :: dict_del k d'
  end.

Definition dict_keys {V} (d : dict V) : list str := map fst d.
Definition dict_values {V} (d : dict V) : list V := map snd d.

(** No key twice: what every [dict] satisfies. *)
Definition dict_wf {V} (d : dict V) : Prop := NoDup (dict_keys d).

(** ** [AddressBook] *)

Record AddressBook : Type := mkAddressBook { data : dict Record_ }.

(** [AddressBook()] *)
Definition AddressBook_new : AddressBook := mkAddressBook [].

(** [AddressBook.add_record] *)
Definition AddressBook_add_record (record : Record_) : M AddressBook unit :=
  modify (fun self =>
            mkAddressBook (dict_set (name_value (name record)) record (data self))).

(** [AddressBook.find] *)
Definition AddressBook_find (name : str) : M AddressBook (option Record_) :=
  self <- get ;; ret (dict_get name (data self)).

(** [AddressBook.delete] *)
Definition AddressBook_delete (name : str) : M AddressBook bool :=
  self <- get ;;
  match dict_get name (data self) with
  | Some _ =>
      modify (fun self => mkAddressBook (dict_del name (data self))) ;;; ret true
  | None => ret false
  end.

(** The loop of [AddressBook.get_upcoming_birthdays].  An exception raised
    by [replace] leaves the loop and the method. *)
Fixpoint upcoming_loop (today : datetime) (records upcoming : list Record_)
  : result (list Record_) :=
  match records with
  | [] => Ok upcoming
  | record :: rest =>
      match birthday record with
      | Some b =>
          match datetime_replace_year (birthday_value b) (year today) with
          | Raise e => Raise e
          | Ok birthday_this_year =>
              let days_until_birthday :=
                td_days (datetime_sub birthday_this_year today) in
              if (0 <=? days_until_birthday) && (days_until_birthday <=? 7)
              then upcoming_loop today rest (upcoming ++ [record])
              else upcoming_loop today rest upcoming
          end
      | None => upcoming_loop today rest upcoming
      end
  end.

(** The two steps of the loop body for one birthday: the stored date moved
    to the year of [today], then the whole days from [today] to it. *)
Definition days_until (birthday today : datetime) : result Z :=
  match datetime_replace_year birthday (year today) with
  | Ok birthday_this_year => Ok (td_days (datetime_sub birthday_this_year today))
  | Raise e => Raise e
  end.

(** The Records the loop keeps. *)
Definition in_window (today : datetime) (record : Record_) : bool :=
  match birthday record with
  | Some b =>
      match days_until (birthday_value b) today with
      | Ok delta => (0 <=? delta) && (delta <=? 7)
      | Raise _ => false
      end
  | None => false
  end.

(** [AddressBook.get_upcoming_birthdays]; [today] is the value that
    [datetime.today()] returns, a date with the time of day. *)
Definition AddressBook_get_upcoming_birthdays (today : datetime)
  (self : AddressBook) : result (list Record_) :=
  upcoming_loop today (dict_values (data self)) [].

(** ** Command handlers *)

(** The decorator [input_error]: the exception of the handler becomes the
    text it returns; the book stays as the handler left it. *)
Definition input_error (func : M AddressBook str) (book : AddressBook)
  : str * AddressBook :=
  match func book with
  | (Ok text, book') => (text, book')
  | (Raise (KeyError _), book') => (u "Contact not found.", book')
  | (Raise (ValueError msg), book') => (u msg, book')
  | (Raise IndexError, book') =>
      (u "Invalid command. Please provide correct arguments.", book')
  end.

(** A method call on the Record object that [find] returned for [key].
    The book holds that same object, so the state in which the call leaves
    it, whether it returns or raises, is the state of the book's entry. *)
Definition on_record {A} (key : str) (record : Record_) (m : M Record_ A)
  : M AddressBook A :=
  fun book =>
    let (res, record') := m record in
    (res, mkAddressBook (dict_set key record' (data book))).

(** A method call on a Record object that only a local variable holds:
    the object is lost when the call raises. *)
Definition on_local {A} (record : Record_) (m : M Record_ A)
  : M AddressBook (A * Record_) :=
  fun book =>
    match m record with
    | (Ok a, record') => (Ok (a, record'), book)
    | (Raise e, _) => (Raise e, book)
    end.

Definition add_contact_body (args : list str) : M AddressBook str :=
  match args with
  | [name; phone] =>
      record <- AddressBook_find name ;;
      match record with
      | Some r =>
          on_record name r (Record_add_phone phone) ;;;
          ret (u "Contact added.")
      | None =>
          made <- on_local (Record_init name) (Record_add_phone phone) ;;
          AddressBook_add_record (snd made) ;;;
          ret (u "Contact added.")
      end
  | _ => raise (ValueError "Invalid command. Usage: add [name] [phone]")
  end.

Definition add_contact (args : list str) := input_error (add_contact_body args).

Definition change_contact_body (args : list str) : M AddressBook str :=
  match args with
  | [name; old_phone; new_phone] =>
      record <- AddressBook_find name ;;
      match record with
      | Some r =>
          found <- on_record name r (Record_edit_phone old_phone new_phone) ;;
          if found : bool then ret (u "Contact updated.")
          else ret (u "Phone number not found.")
      | None => raise (KeyError "Contact not found.")
      end
  | _ => raise (ValueError
                  "Invalid command. Usage: change [name] [old_phone] [new_phone]")
  end.

Definition change_contact (args : list str) :=
  input_error (change_contact_body args).

Definition show_phone_body (args : list str) : M AddressBook str :=
  match args with
  | [name] =>
      record <- AddressBook_find name ;;
      match record with
      | Some r => ret (join (u ", ") (map phone_value (phones r)))
      | None => raise (KeyError "Contact not found.")
      end
  | _ => raise (ValueError "Invalid command. Usage: phone [name]")
  end.

Definition show_phone (args : list str) := input_error (show_phone_body args).

Definition show_all_body (pad_year : bool) : M AddressBook str :=
  book <- get ;;
  match data book with
  | [] => ret (u "No contacts found.")
  | _ => ret (join [NEWLINE] (map (Record_str pad_year) (dict_values (data book))))
  end.

Definition show_all (pad_year : bool) := input_error (show_all_body pad_year).

Definition add_birthday_body (args : list str) : M AddressBook str :=
  match args with
  | [name; birthday] =>
      record <- AddressBook_find name ;;
      match record with
      | Some r =>
          on_record name r (Record_add_birthday birthday) ;;;
          ret (u "Birthday added.")
      | None => raise (KeyError "Contact not found.")
      end
  | _ => raise (ValueError
                  "Invalid command. Usage: add-birthday [name] [birthday]")
  end.

Definition add_birthday (args : list str) := input_error (add_birthday_body args).

Definition show_birthday_body (pad_year : bool) (args : list str)
  : M AddressBook str :=
  match args with
  | [name] =>
      record <- AddressBook_find name ;;
      match record with
      | Some r =>
          match birthday r with
          | Some b => ret (strftime_dmY pad_year (birthday_value b))
          | None => ret (u "Birthday not set.")
          end
      | None => raise (KeyError "Contact not found.")
      end
  | _ => raise (ValueError "Invalid command. Usage: show-birthday [name]")
  end.

Definition show_birthday (pad_year : bool) (args : list str) :=
  input_error (show_birthday_body pad_year args).

Definition birthdays_body (pad_year : bool) (today : datetime)
  : M AddressBook str :=
  book <- get ;;
  upcoming_birthdays <- lift (AddressBook_get_upcoming_birthdays today book) ;;
  match upcoming_birthdays with
  | [] => ret (u "No upcoming birthdays.")
  | _ => ret (join [NEWLINE] (map (Record_str pad_year) upcoming_birthdays))
  end.

Definition birthdays (pad_year : bool) (today : datetime) :=
  input_error (birthdays_body pad_year today).

(** ** The operations on a book and the states they reach

    [add], [change] and [add-birthday] are the handlers above, with any
    argument list.  [AddressBook.delete] and [Record.remove_phone] have no
    handler; they are called on the book and on a Record found in it. *)

Definition remove_phone_of (name phone : str) : M AddressBook bool :=
  record <- AddressBook_find name ;;
  match record with
  | Some r => on_record name r (Record_remove_phone phone)
  | None => ret false
  end.

Inductive op : Type :=
| OpAdd (args : list str)
| OpChange (args : list str)
| OpAddBirthday (args : list str)
| OpDelete (name : str)
| OpRemovePhone (name phone : str).

Definition run_op (o : op) (book : AddressBook) : AddressBook :=
  match o with
  | OpAdd args => snd (add_contact args book)
  | OpChange args => snd (change_contact args book)
  | OpAddBirthday args => snd (add_birthday args book)
  | OpDelete name => snd (AddressBook_delete name book)
  | OpRemovePhone name phone => snd (remove_phone_of name phone book)
  end.

Inductive reachable : AddressBook -> Prop :=
| reach_new : reachable AddressBook_new
| reach_step : forall book o, reachable book -> reachable (run_op o book).

(** The two properties of a book that the operations keep. *)
Definition keyed_by_name (book : AddressBook) : Prop :=
  Forall (fun kv => name_value (name (snd kv)) = fst kv) (data book).

Definition count_key (k : str) (book : AddressBook) : nat :=
  length (filter (fun kv => str_eqb (fst kv) k) (data book)).

Definition book_inv (book : AddressBook) : Prop :=
  dict_wf (data book) /\ keyed_by_name book.

(** ** Sample data *)

Definition june25_1990 : datetime := mkDatetime 1990 6 25 0 0 0 0.
Definition march3_1990 : datetime := mkDatetime 1990 3 3 0 0 0 0.
Definition feb29_2000 : datetime := mkDatetime 2000 2 29 0 0 0 0.

Definition alice : Record_ :=
  mkRecord (mkName (u "alice")) [mkPhone (u "0123456789")]
           (Some (mkBirthday june25_1990)).

Definition bob : Record_ :=
  mkRecord (mkName (u "bob")) [mkPhone (u "5550001111")]
           (Some (mkBirthday march3_1990)).

Definition carol : Record_ :=
  mkRecord (mkName (u "carol")) [mkPhone (u "1112223333")]
           (Some (mkBirthday feb29_2000)).

Definition book_alice : AddressBook := mkAddressBook [(u "alice", alice)].

Definition book_carol_bob : AddressBook :=
  mkAddressBook [(u "carol", carol); (u "bob", bob)].

(** ** [parse_input] and the loop of [main]

    [str.split()] cuts a line at runs of whitespace and [str.strip()]
    removes whitespace at both ends; whitespace is what [str.isspace]
    accepts, listed in [space_ranges].  [str.lower] is the lowercase
    mapping of the Unicode tables of the runtime; it is a parameter of
    [parse_input] and of the loop. *)

Definition space_ranges : list (char * char) :=
  [ (0x9, 0xd); (0x1c, 0x20); (0x85, 0x85); (0xa0, 0xa0); (0x1680, 0x1680);
    (0x2000, 0x200a); (0x2028, 0x2029); (0x202f, 0x202f); (0x205f, 0x205f);
    (0x3000, 0x3000) ]%N.

Definition is_space (c : char) : bool :=
  existsb (fun r => (fst r <=? c)%N && (c <=? snd r)%N) space_ranges.

(** [s.split()], with [tok] the word being read. *)
Fixpoint split_from (s tok : str) : list str :=
  match s with
  | [] => match tok with [] => [] | _ => [tok] end
  | c :: s' =>
      if is_space c then
        match tok with
        | [] => split_from s' []
        | _ => tok :: split_from s' []
        end
      else split_from s' (tok ++ [c])
  end.

Definition str_split (s : str) : list str := split_from s [].

Fixpoint str_lstrip (s : str) : str :=
  match s with
  | c :: s' => if is_space c then str_lstrip s' else s
  | [] => []
  end.

Definition str_strip (s : str) : str := rev (str_lstrip (rev (str_lstrip s))).

Definition unpack_error : exn :=
  ValueError "not enough values to unpack (expected at least 1, got 0)".

(** [parse_input]: [cmd, *args = user_input.split()] raises when the line
    has no word. *)
Definition parse_input (lower : str -> str) (user_input : str)
  : result (str * list str) :=
  match str_split user_input with
  | [] => Raise unpack_error
  | cmd :: args => Ok (lower (str_strip cmd), args)
  end.

(** One turn of the loop of [main] on the line that [input] returned: the
    text it prints and the book it goes on with, or the text it prints and
    the book it hands to [save_data] before [break].  [parse_input] is
    called outside any handler, so its exception ends [main]. *)
Inductive outcome : Type :=
| Continue (printed : str) (book : AddressBook)
| Exit (printed : str) (saved : AddressBook).

Definition continue (answer : str * AddressBook) : result outcome :=
  Ok (Continue (fst answer) (snd answer)).

Definition main_step (lower : str -> str) (pad_year : bool) (today : datetime)
  (user_input : str) (book : AddressBook) : result outcome :=
  match parse_input lower user_input with
  | Raise e => Raise e
  | Ok (command, args) =>
      if str_eqb command (u "close") || str_eqb command (u "exit")
      then Ok (Exit (u "Good bye!") book)
      else if str_eqb command (u "hello")
      then Ok (Continue (u "How can I help you?") book)
      else if str_eqb command (u "add") then continue (add_contact args book)
      else if str_eqb command (u "change")
      then continue (change_contact args book)
      else if str_eqb command (u "phone") then continue (show_phone args book)
      else if str_eqb command (u "all") then continue (show_all pad_year book)
      else if str_eqb command (u "add-birthday")
      then continue (add_birthday args book)
      else if str_eqb command (u "show-birthday")
      then continue (show_birthday pad_year args book)
      else if str_eqb command (u "birthdays")
      then continue (birthdays pad_year today book)
      else Ok (Continue (u "Invalid command.") book)
  end.

(** The books the loop reaches from the empty book that [load_data] makes
    when there is no file. *)
Inductive main_reachable (lower : str -> str) : AddressBook -> Prop :=
| main_start : main_reachable lower AddressBook_new
| main_turn : forall pad_year today user_input book printed book',
    main_reachable lower book ->
    main_step lower pad_year today user_input book = Ok (Continue printed book') ->
    main_reachable lower book'.

(** ** What is stored in a book *)

Definition at_midnight (d : datetime) : Prop :=
  hour d = 0 /\ minute d = 0 /\ second d = 0 /\ microsecond d = 0.

(** Every phone passed [Phone.validate]; the birthday, if any, is a date
    the constructor built, at midnight. *)
Definition record_ok (r : Record_) : Prop :=
  Forall (fun p => Phone_validate (phone_value p) = Ok (phone_value p))
         (phones r)
  /\ forall b, birthday r = Some b ->
       valid_datetime (birthday_value b) /\ at_midnight (birthday_value b).

Definition book_ok (book : AddressBook) : Prop :=
  Forall record_ok (dict_values (data book)).

(** A word: not empty, no whitespace in it. *)
Definition is_word (t : str) : Prop :=
  t <> [] /\ forallb (fun c => negb (is_space c)) t = true.

Definition no_space (t : str) : Prop :=
  forallb (fun c => negb (is_space c)) t = true.

(** A text of exactly ten decimal digits. *)
Definition ten_digits (t : str) : Prop :=
  length t = 10%nat /\ forallb is_decimal t = true.

(** What the loop of [main] lets into a book: names that are words and
    phones of exactly ten decimal digits. *)
Definition typed_entry (kv : str * Record_) : Prop :=
  is_word (fst kv)
  /\ Forall (fun p => ten_digits (phone_value p)) (phones (snd kv)).

Definition typed_book (book : AddressBook) : Prop :=
  Forall typed_entry (data book).

(** The days from the date of [today] to the date [c]. *)
Definition date_diff (c today : datetime) : Z :=
  toordinal c - toordinal today.

(** * Properties *)

(** ** Strings and digits *)

Lemma str_eqb_eq (a b : str) : str_eqb a b = true <-> a = b.
Proof.
  revert b; induction a as [|x a IH]; intros [|y b]; simpl;
    try (split; [discriminate | congruence]); [tauto|].
  rewrite andb_true_iff, N.eqb_eq, IH.
  split; [intros [-> ->]; reflexivity | intros [= -> ->]; auto].
Qed.

Lemma str_eqb_refl (a : str) : str_eqb a a = true.
Proof. apply str_eqb_eq; reflexivity. Qed.

Lemma str_eqb_neq (a b : str) : str_eqb a b = false <-> a <> b.
Proof.
  rewrite <- str_eqb_eq. destruct (str_eqb a b); split; congruence.
Qed.

Lemma decimal_in_above (zs : list char) (c : char) :
  Forall (fun z => (c < z)%N) zs -> decimal_in zs c = None.
Proof.
  induction 1 as [|z zs Hz _ IH]; simpl; [reflexivity|].
  replace (z <=? c)%N with false by (symmetry; apply N.leb_gt; exact Hz).
  exact IH.
Qed.

(** Below 128 the decimal digits are the ASCII digits. *)
Lemma is_decimal_ascii (c : char) :
  (c < 128)%N -> is_decimal c = is_ascii_digit c.
Proof.
  intros Hc. unfold is_decimal, decimal, is_ascii_digit.
  change Nd_zeros with (48%N :: tl Nd_zeros). cbn [decimal_in].
  destruct (48 <=? c)%N eqn:Hlo; cbn [andb].
  - destruct (c <? 48 + 10)%N eqn:Hhi.
    + symmetry. apply N.leb_le. apply N.ltb_lt in Hhi. lia.
    + rewrite decimal_in_above.
      * symmetry. apply N.leb_gt. apply N.ltb_ge in Hhi. lia.
      * assert (H : Forall (fun z => (128 <= z)%N) (tl Nd_zeros)).
        { apply Forall_forall. intros z Hz.
          assert (Hb : forallb (fun z => (128 <=? z)%N) (tl Nd_zeros) = true)
            by (vm_compute; reflexivity).
          rewrite forallb_forall in Hb. apply N.leb_le. apply Hb. exact Hz. }
        eapply Forall_impl; [|exact H]. cbv beta. intros; lia.
  - rewrite decimal_in_above; [reflexivity|].
    apply N.leb_gt in Hlo.
    apply Forall_forall. intros z Hz.
    assert (Hb : forallb (fun z => (48 <=? z)%N) Nd_zeros = true)
      by (vm_compute; reflexivity).
    rewrite forallb_forall in Hb.
    assert (Hz' : In z Nd_zeros) by (right; exact Hz).
    apply Hb in Hz'. apply N.leb_le in Hz'. lia.
Qed.

Lemma ascii_digit_is_decimal (c : char) :
  is_ascii_digit c = true -> is_decimal c = true.
Proof.
  intros H. rewrite is_decimal_ascii; [exact H|].
  unfold is_ascii_digit in H. apply andb_true_iff in H as [_ H].
  apply N.leb_le in H. lia.
Qed.

Lemma forallb_decimal_ascii (s : str) :
  Forall (fun c => (c < 128)%N) s ->
  forallb is_decimal s = forallb is_ascii_digit s.
Proof.
  induction 1 as [|c s Hc _ IH]; simpl; [reflexivity|].
  rewrite IH, is_decimal_ascii by exact Hc. reflexivity.
Qed.

(** ** [Phone.validate] *)

(** What the ten [\d] followed by [$] match: the digits, and possibly one
    newline after them. *)
Lemma digits_then_eol (n : nat) (b : bool) (s : str) :
  re_match_here (repeat Digit n ++ [Eol]) b s = true <->
  exists ds, length ds = n /\ forallb is_decimal ds = true /\
             (s = ds \/ s = ds ++ [NEWLINE]).
Proof.
  revert b s; induction n as [|n IH]; intros b s; simpl.
  - rewrite andb_true_r. split.
    + intros H. exists []. repeat split.
      destruct s as [|c [|c' s]]; simpl in H; try discriminate; auto.
      apply N.eqb_eq in H. subst c. auto.
    + intros (ds & Hlen & _ & Hs). destruct ds; [|discriminate].
      destruct Hs as [-> | ->]; reflexivity.
  - destruct s as [|c s].
    + split; [discriminate|].
      intros (ds & Hlen & _ & Hs). destruct ds; [discriminate|].
      destruct Hs; discriminate.
    + rewrite andb_true_iff, IH. split.
      * intros (Hc & ds & Hlen & Hds & Hs).
        exists (c :: ds). simpl. rewrite Hc, Hds, Hlen. repeat split.
        destruct Hs as [-> | ->]; auto.
      * intros (ds & Hlen & Hds & Hs).
        destruct ds as [|d ds]; [discriminate|].
        simpl in Hlen, Hds. apply andb_true_iff in Hds as [Hd Hds].
        assert (c = d /\ (s = ds \/ s = ds ++ [NEWLINE])) as [-> Hs'].
        { destruct Hs as [Hs | Hs]; injection Hs as -> ->; auto. }
        split; [exact Hd|]. exists ds. repeat split; auto.
Qed.

Lemma Phone_validate_cases (s : str) :
  (Phone_validate s = Ok s /\ re_match phone_pattern s = true) \/
  (Phone_validate s = Raise phone_error /\ re_match phone_pattern s = false).
Proof.
  unfold Phone_validate. destruct (re_match phone_pattern s); auto.
Qed.

(** The strings [Phone.validate] accepts, all of them. *)
Lemma Phone_validate_accepts (s : str) :
  Phone_validate s = Ok s <->
  exists ds, length ds = 10%nat /\ forallb is_decimal ds = true /\
             (s = ds \/ s = ds ++ [NEWLINE]).
Proof.
  rewrite <- (digits_then_eol 10 true s).
  change (re_match_here (repeat Digit 10 ++ [Eol]) true s)
    with (re_match phone_pattern s).
  destruct (Phone_validate_cases s) as [[H1 H2] | [H1 H2]];
    rewrite H1, H2; split; try discriminate; auto.
Qed.

Lemma Phone_validate_value (s v : str) : Phone_validate s = Ok v -> v = s.
Proof.
  unfold Phone_validate. destruct (re_match phone_pattern s); congruence.
Qed.

Lemma Phone_init_ok (s : str) :
  Phone_validate s = Ok s -> Phone_init s = Ok (mkPhone s).
Proof. unfold Phone_init. intros ->. reflexivity. Qed.

Lemma Phone_init_raise (s : str) :
  Phone_validate s <> Ok s -> Phone_init s = Raise phone_error.
Proof.
  unfold Phone_init.
  destruct (Phone_validate_cases s) as [[H _] | [H _]]; rewrite H;
    [congruence | reflexivity].
Qed.

(** C3 (as amended).  For every string [s] other than ten decimal digits
    followed by a newline, [Phone.validate] accepts [s] if and only if [s]
    is exactly ten decimal digits, where a decimal digit is any character
    that [\d] matches, the ASCII digits among them; an accepted [s] is
    stored as it is; every other [s] is refused with [ValueError("Phone
    number must be 10 digits")].  For a string of ASCII characters the
    digits are exactly the ASCII digits. *)
Theorem C3_validate_phone (s : str) :
  ~ (exists digits, ten_digits digits /\ s = digits ++ [NEWLINE]) ->
  (Phone_validate s = Ok s <->
   length s = 10%nat /\ forallb is_decimal s = true)
  /\ (Phone_validate s = Ok s -> Phone_init s = Ok (mkPhone s))
  /\ (~ (length s = 10%nat /\ forallb is_decimal s = true) ->
      Phone_validate s = Raise phone_error /\ Phone_init s = Raise phone_error)
  /\ (Forall (fun c => (c < 128)%N) s ->
      (Phone_validate s = Ok s <->
       length s = 10%nat /\ forallb is_ascii_digit s = true)).
Proof.
  intros Hnl.
  assert (Hiff : Phone_validate s = Ok s <->
                 length s = 10%nat /\ forallb is_decimal s = true).
  { rewrite Phone_validate_accepts. split.
    - intros (ds & Hlen & Hds & [-> | ->]); [auto|].
      exfalso. apply Hnl. exists ds. split; [split; assumption | reflexivity].
    - intros [Hlen Hds]. exists s. auto. }
  split; [exact Hiff|]. split; [apply Phone_init_ok|]. split.
  - intros Hno. rewrite <- Hiff in Hno. split.
    + destruct (Phone_validate_cases s) as [[H _] | [H _]];
        [contradiction | exact H].
    + apply Phone_init_raise. exact Hno.
  - intros Hascii. rewrite Hiff, forallb_decimal_ascii by exact Hascii.
    reflexivity.
Qed.

Lemma C3_validate_phone_witness :
  Phone_validate (u "0123456789") = Ok (u "0123456789")
  /\ Phone_validate (u "12345" ++ [NEWLINE]) = Raise phone_error.
Proof.
  split.
  - assert (Hnl : ~ (exists digits, ten_digits digits
                                    /\ u "0123456789" = digits ++ [NEWLINE])).
    { intros (ds & [Hlen _] & Hs). apply (f_equal (@length char)) in Hs.
      rewrite !length_app in Hs. cbn in Hs. lia. }
    destruct (C3_validate_phone (u "0123456789") Hnl) as [H _].
    apply H. split; reflexivity.
  - assert (Hnl : ~ (exists digits, ten_digits digits
                                    /\ u "12345" ++ [NEWLINE]
                                       = digits ++ [NEWLINE])).
    { intros (ds & [Hlen _] & Hs). apply (f_equal (@length char)) in Hs.
      rewrite !length_app in Hs. cbn in Hs. lia. }
    destruct (C3_validate_phone (u "12345" ++ [NEWLINE]) Hnl)
      as (_ & _ & H & _).
    apply H. intros [Hlen _]. discriminate Hlen.
Defined.

(** C3 as stated fails: a string of eleven characters, ten digits and a
    newline, is accepted, and so is a string of ten Arabic-Indic digits,
    none of which is an ASCII digit. *)
Lemma C3_counterexample :
  (Phone_validate (u "0123456789" ++ [NEWLINE])
   = Ok (u "0123456789" ++ [NEWLINE])
   /\ length (u "0123456789" ++ [NEWLINE]) = 11%nat)
  /\ (Phone_validate (repeat 0x660%N 10) = Ok (repeat 0x660%N 10)
      /\ forallb is_ascii_digit (repeat 0x660%N 10) = false).
Proof. repeat split. Qed.

Example phone_ok : Phone_validate (u "0123456789") = Ok (u "0123456789").
Proof. reflexivity. Qed.

Example phone_short : Phone_validate (u "12345") = Raise phone_error.
Proof. reflexivity. Qed.

Example phone_letters : Phone_validate (u "01234x6789") = Raise phone_error.
Proof. reflexivity. Qed.

Example phone_two_newlines :
  Phone_validate (u "0123456789" ++ [NEWLINE; NEWLINE]) = Raise phone_error.
Proof. reflexivity. Qed.

(** ** [Record.edit_phone] *)

Section EditPhone.

Variables old_phone new_phone : str.

(** No phone matches: the loop ends without building [Phone(new_phone)]. *)
Lemma edit_first_absent (ps : list Phone) :
  ~ In old_phone (map phone_value ps) -> edit_first old_phone new_phone ps = Ok None.
Proof.
  induction ps as [|p ps IH]; simpl; intros Hno; [reflexivity|].
  destruct (str_eqb (phone_value p) old_phone) eqn:E.
  - apply str_eqb_eq in E. tauto.
  - rewrite IH by tauto. reflexivity.
Qed.

(** The first phone that matches splits the list. *)
Lemma first_match_split (ps : list Phone) :
  In old_phone (map phone_value ps) ->
  exists before p after,
    ps = before ++ p :: after /\ phone_value p = old_phone /\
    ~ In old_phone (map phone_value before).
Proof.
  induction ps as [|p ps IH]; simpl; intros Hin; [contradiction|].
  destruct (str_eqb (phone_value p) old_phone) eqn:E.
  - apply str_eqb_eq in E. exists [], p, ps. simpl. auto.
  - apply str_eqb_neq in E.
    destruct IH as (before & q & after & -> & Hq & Hno); [tauto|].
    exists (p :: before), q, after. simpl. repeat split; auto.
    intros [H | H]; auto.
Qed.

Lemma edit_first_at (before after : list Phone) (p : Phone) :
  phone_value p = old_phone -> ~ In old_phone (map phone_value before) ->
  edit_first old_phone new_phone (before ++ p :: after) =
  match Phone_init new_phone with
  | Ok q => Ok (Some (before ++ mkPhone (phone_value q) :: after))
  | Raise e => Raise e
  end.
Proof.
  intros Hp. induction before as [|b before IH]; simpl; intros Hno.
  - rewrite Hp, str_eqb_refl. reflexivity.
  - replace (str_eqb (phone_value b) old_phone) with false
      by (symmetry; apply str_eqb_neq; tauto).
    rewrite IH by tauto. destruct (Phone_init new_phone); reflexivity.
Qed.

End EditPhone.

Lemma Record_edit_phone_absent (r : Record_) (old_value new_value : str) :
  ~ In old_value (map phone_value (phones r)) ->
  Record_edit_phone old_value new_value r = (Ok false, r).
Proof.
  intros Hno. unfold Record_edit_phone, bind, get, lift.
  rewrite edit_first_absent by exact Hno. reflexivity.
Qed.

(** C6 (as amended).  When no phone of the Record has the value
    [old_value], [edit_phone] returns not-found and leaves the Record as it
    was.  When some phone has it and [new_value] is a valid phone,
    [edit_phone] returns found and the phone list differs from the old one
    only at the first phone with that value, whose value is now
    [new_value]: same length, same positions, same other phones. *)
Theorem C6_edit_phone_frame (r : Record_) (old_value new_value : str) :
  (~ In old_value (map phone_value (phones r)) ->
   Record_edit_phone old_value new_value r = (Ok false, r))
  /\ (Phone_validate new_value = Ok new_value ->
      In old_value (map phone_value (phones r)) ->
      exists before p after,
        phones r = before ++ p :: after /\ phone_value p = old_value /\
        ~ In old_value (map phone_value before) /\
        Record_edit_phone old_value new_value r =
        (Ok true, set_phones (before ++ mkPhone new_value :: after) r)).
Proof.
  split; [apply Record_edit_phone_absent|].
  intros Hvalid Hin.
    destruct (first_match_split old_value (phones r) Hin)
      as (before & p & after & Hps & Hp & Hno).
    exists before, p, after. repeat split; auto.
    unfold Record_edit_phone, bind, get, lift.
    rewrite Hps, (edit_first_at old_value new_value before after p Hp Hno).
    rewrite (Phone_init_ok new_value Hvalid). reflexivity.
Qed.

Lemma C6_edit_phone_frame_witness :
  Record_edit_phone (u "9999999999") (u "1112223333")
    (mkRecord (mkName (u "alice")) [mkPhone (u "0123456789")] None)
  = (Ok false, mkRecord (mkName (u "alice")) [mkPhone (u "0123456789")] None)
  /\ exists before p after,
      [mkPhone (u "0123456789"); mkPhone (u "0123456798")]
      = before ++ p :: after /\
      phone_value p = u "0123456798" /\
      ~ In (u "0123456798") (map phone_value before) /\
      Record_edit_phone (u "0123456798") (u "1112223333")
        (mkRecord (mkName (u "alice"))
                  [mkPhone (u "0123456789"); mkPhone (u "0123456798")] None)
      = (Ok true,
         set_phones (before ++ mkPhone (u "1112223333") :: after)
           (mkRecord (mkName (u "alice"))
                     [mkPhone (u "0123456789"); mkPhone (u "0123456798")] None)).
Proof.
  split.
  - apply (C6_edit_phone_frame
             (mkRecord (mkName (u "alice")) [mkPhone (u "0123456789")] None)).
    simpl. intros [H | []]. discriminate H.
  - apply (C6_edit_phone_frame
             (mkRecord (mkName (u "alice"))
                       [mkPhone (u "0123456789"); mkPhone (u "0123456798")] None)
             (u "0123456798") (u "1112223333")).
    + reflexivity.
    + simpl. right. left. reflexivity.
Defined.

(** C6 as stated fails when [new_value] is not a valid phone: the old value
    matches, and [edit_phone] raises instead of replacing it and returning
    found. *)
Lemma C6_counterexample :
  In (u "0123456789") (map phone_value [mkPhone (u "0123456789")])
  /\ Record_edit_phone (u "0123456789") (u "abc")
       (mkRecord (mkName (u "alice")) [mkPhone (u "0123456789")] None)
     = (Raise phone_error,
        mkRecord (mkName (u "alice")) [mkPhone (u "0123456789")] None).
Proof. split; [left; reflexivity | reflexivity]. Qed.

(** C7 (as amended).  [edit_phone] validates [new_value] when it replaces:
    if some phone of the Record has the value [old_value] and [new_value]
    is not a valid phone, [edit_phone] fails with [ValueError("Phone number
    must be 10 digits")] and the Record is as it was; if no phone has the
    value [old_value], [edit_phone] returns not-found without validating
    [new_value]. *)
Theorem C7_edit_phone_validation (r : Record_) (old_value new_value : str) :
  Phone_validate new_value <> Ok new_value ->
  (In old_value (map phone_value (phones r)) ->
   Record_edit_phone old_value new_value r = (Raise phone_error, r))
  /\ (~ In old_value (map phone_value (phones r)) ->
      Record_edit_phone old_value new_value r = (Ok false, r)).
Proof.
  intros Hbad. split.
  - intros Hin.
    destruct (first_match_split old_value (phones r) Hin)
      as (before & p & after & Hps & Hp & Hno).
    unfold Record_edit_phone, bind, get, lift.
    rewrite Hps, (edit_first_at old_value new_value before after p Hp Hno).
    rewrite (Phone_init_raise new_value Hbad). reflexivity.
  - apply Record_edit_phone_absent.
Qed.

Lemma C7_edit_phone_validation_witness :
  Record_edit_phone (u "0123456789") (u "abc")
    (mkRecord (mkName (u "alice")) [mkPhone (u "0123456789")] None)
  = (Raise phone_error,
     mkRecord (mkName (u "alice")) [mkPhone (u "0123456789")] None).
Proof.
  apply (C7_edit_phone_validation
           (mkRecord (mkName (u "alice")) [mkPhone (u "0123456789")] None)
           (u "0123456789") (u "abc")).
  - discriminate.
  - left. reflexivity.
Defined.

(** C7 as stated fails when the old value is absent: [new_value] is not a
    valid phone, and [edit_phone] returns not-found instead of failing. *)
Lemma C7_counterexample :
  Phone_validate (u "abc") = Raise phone_error
  /\ ~ In (u "9999999999") (map phone_value [mkPhone (u "0123456789")])
  /\ Record_edit_phone (u "9999999999") (u "abc")
       (mkRecord (mkName (u "alice")) [mkPhone (u "0123456789")] None)
     = (Ok false,
        mkRecord (mkName (u "alice")) [mkPhone (u "0123456789")] None).
Proof.
  split; [reflexivity|]. split; [|reflexivity].
  simpl. intros [H | []]. discriminate H.
Qed.

(** ** The dictionary *)

Section Dict.

Context {V : Type}.
Implicit Types (d : dict V) (k : str) (v : V).

Lemma dict_get_in d k v : dict_get k d = Some v -> In (k, v) d.
Proof.
  induction d as [|[k' v'] d IH]; simpl; [discriminate|].
  destruct (str_eqb k' k) eqn:E.
  - apply str_eqb_eq in E. intros [= ->]. left. congruence.
  - auto.
Qed.

Lemma dict_get_none d k : dict_get k d = None <-> ~ In k (dict_keys d).
Proof.
  induction d as [|[k' v'] d IH]; simpl; [tauto|].
  destruct (str_eqb k' k) eqn:E.
  - apply str_eqb_eq in E. split; [discriminate | tauto].
  - apply str_eqb_neq in E. rewrite IH. tauto.
Qed.

Lemma dict_get_set_same d k v : dict_get k (dict_set k v d) = Some v.
Proof.
  induction d as [|[k' v'] d IH]; simpl.
  - rewrite str_eqb_refl. reflexivity.
  - destruct (str_eqb k' k) eqn:E; simpl; rewrite E; auto.
Qed.

Lemma dict_get_set_other d k k' v :
  k' <> k -> dict_get k' (dict_set k v d) = dict_get k' d.
Proof.
  intros Hne. induction d as [|[k0 v0] d IH]; simpl.
  - replace (str_eqb k k') with false; [reflexivity|].
    symmetry. apply str_eqb_neq. congruence.
  - destruct (str_eqb k0 k) eqn:E; simpl.
    + apply str_eqb_eq in E. subst k0.
      replace (str_eqb k k') with false; [reflexivity|].
      symmetry. apply str_eqb_neq. congruence.
    + rewrite IH. reflexivity.
Qed.

(** Storing the value a key already has changes nothing. *)
Lemma dict_set_same d k v : dict_get k d = Some v -> dict_set k v d = d.
Proof.
  induction d as [|[k' v'] d IH]; simpl; [discriminate|].
  destruct (str_eqb k' k) eqn:E.
  - intros [= ->]. reflexivity.
  - intros H. rewrite IH by exact H. reflexivity.
Qed.

(** Storing under a key that is present keeps the keys and their order. *)
Lemma dict_keys_set_present d k v v0 :
  dict_get k d = Some v0 -> dict_keys (dict_set k v d) = dict_keys d.
Proof.
  unfold dict_keys.
  induction d as [|[k' v'] d IH]; simpl; [discriminate|].
  destruct (str_eqb k' k) eqn:E; simpl; [reflexivity|].
  intros H. rewrite IH by exact H. reflexivity.
Qed.

(** Storing under a new key appends the entry. *)
Lemma dict_set_absent d k v :
  dict_get k d = None -> dict_set k v d = d ++ [(k, v)].
Proof.
  induction d as [|[k' v'] d IH]; simpl; [reflexivity|].
  destruct (str_eqb k' k) eqn:E; [discriminate|].
  intros H. rewrite IH by exact H. reflexivity.
Qed.

Lemma dict_set_in d k v k0 v0 :
  In (k0, v0) (dict_set k v d) -> (k0 = k /\ v0 = v) \/ In (k0, v0) d.
Proof.
  induction d as [|[k' v'] d IH]; simpl.
  - intros [[= <- <-] | []]. auto.
  - destruct (str_eqb k' k) eqn:E; simpl.
    + apply str_eqb_eq in E. subst k'.
      intros [[= <- <-] | H]; auto.
    + intros [H | H]; auto. apply IH in H. tauto.
Qed.

Lemma dict_del_in d k k0 v0 : In (k0, v0) (dict_del k d) -> In (k0, v0) d.
Proof.
  induction d as [|[k' v'] d IH]; simpl; [tauto|].
  destruct (str_eqb k' k); simpl; intuition.
Qed.

Lemma dict_set_wf d k v : dict_wf d -> dict_wf (dict_set k v d).
Proof.
  unfold dict_wf. intros Hwf.
  destruct (dict_get k d) as [v0|] eqn:G.
  - rewrite (dict_keys_set_present d k v v0 G). exact Hwf.
  - rewrite (dict_set_absent d k v G). unfold dict_keys.
    rewrite map_app. simpl. apply dict_get_none in G.
    apply NoDup_app; [exact Hwf | repeat constructor; auto |].
    intros a Ha [<- | []]. exact (G Ha).
Qed.

Lemma dict_del_wf d k : dict_wf d -> dict_wf (dict_del k d).
Proof.
  unfold dict_wf, dict_keys.
  induction d as [|[k' v'] d IH]; simpl; intros Hwf; [exact Hwf|].
  inversion Hwf as [|? ? Hk Hd]; subst.
  destruct (str_eqb k' k); simpl; [exact Hd|].
  constructor; [|auto].
  intros Hin. apply Hk. apply in_map_iff in Hin as ([k0 v0] & <- & Hin).
  apply dict_del_in in Hin. apply in_map_iff. exists (k0, v0). auto.
Qed.

(** In a dictionary a key that is present has exactly one entry. *)
Lemma dict_wf_one_entry d k v :
  dict_wf d -> dict_get k d = Some v ->
  length (filter (fun kv => str_eqb (fst kv) k) d) = 1%nat.
Proof.
  unfold dict_wf, dict_keys.
  induction d as [|[k' v'] d IH]; simpl; [discriminate|].
  intros Hwf. inversion Hwf as [|? ? Hk Hd]; subst.
  destruct (str_eqb k' k) eqn:E.
  - intros _. apply str_eqb_eq in E. subst k'. simpl. f_equal.
    assert (Hnone : filter (fun kv : str * V => str_eqb (fst kv) k) d = []).
    { clear - Hk. induction d as [|[k1 v1] d IH]; simpl; [reflexivity|].
      simpl in Hk. destruct (str_eqb k1 k) eqn:E1.
      - apply str_eqb_eq in E1. tauto.
      - apply IH. tauto. }
    rewrite Hnone. reflexivity.
  - intros H. apply IH; assumption.
Qed.

End Dict.

(** ** [add_contact] *)

(** Unfold a handler down to the method calls on Records. *)
Ltac run_handler :=
  cbv beta iota delta
    [add_contact change_contact add_birthday input_error
     add_contact_body change_contact_body add_birthday_body
     remove_phone_of AddressBook_delete AddressBook_find
     AddressBook_add_record on_record on_local
     bind get ret raise lift modify].

Lemma Record_add_phone_ok (phone : str) (r : Record_) :
  Phone_validate phone = Ok phone ->
  Record_add_phone phone r = (Ok tt, set_phones (phones r ++ [mkPhone phone]) r).
Proof.
  intros H. unfold Record_add_phone, bind, lift, modify.
  rewrite (Phone_init_ok phone H). reflexivity.
Qed.

Lemma Record_add_phone_raise (phone : str) (r : Record_) :
  Phone_validate phone <> Ok phone ->
  Record_add_phone phone r = (Raise phone_error, r).
Proof.
  intros H. unfold Record_add_phone, bind, lift.
  rewrite (Phone_init_raise phone H). reflexivity.
Qed.

(** [add] with a valid phone: the Record under [name], extended or new, is
    stored under [name]. *)
Lemma add_contact_valid (book : AddressBook) (name phone : str) :
  Phone_validate phone = Ok phone ->
  add_contact [name; phone] book =
  (u "Contact added.",
   mkAddressBook
     (dict_set name
        (match dict_get name (data book) with
         | Some r => set_phones (phones r ++ [mkPhone phone]) r
         | None => mkRecord (mkName name) [mkPhone phone] None
         end)
        (data book))).
Proof.
  intros H.
  run_handler.
  destruct (dict_get name (data book)) as [r|] eqn:G.
  - rewrite (Record_add_phone_ok phone r H). reflexivity.
  - rewrite (Record_add_phone_ok phone (Record_init name) H). reflexivity.
Qed.

Lemma add_contact_invalid (book : AddressBook) (name phone : str) :
  Phone_validate phone <> Ok phone ->
  add_contact [name; phone] book = (u "Phone number must be 10 digits", book).
Proof.
  intros H.
  run_handler. destruct book as [d]. cbn [data].
  destruct (dict_get name d) as [r|] eqn:G.
  - rewrite (Record_add_phone_raise phone r H). cbn.
    rewrite (dict_set_same d name r G). reflexivity.
  - rewrite (Record_add_phone_raise phone (Record_init name) H). reflexivity.
Qed.

(** C9.  When [add] is called with a phone text that fails validation, the
    answer is the validator's message and the book is unchanged: no entry
    is inserted for an absent name, and the Record of a present name keeps
    its phone list. *)
Theorem C9_add_invalid_phone_unchanged (book : AddressBook) (name phone : str) :
  Phone_validate phone <> Ok phone ->
  add_contact [name; phone] book = (u "Phone number must be 10 digits", book).
Proof.
  intros Hbad. run_handler. destruct book as [d]. cbn [data].
  destruct (dict_get name d) as [r|] eqn:G.
  - (* present: [Phone(phone)] raises before [append] *)
    rewrite (Record_add_phone_raise phone r Hbad). cbn.
    rewrite (dict_set_same d name r G). reflexivity.
  - (* absent: the new Record is dropped before [add_record] *)
    rewrite (Record_add_phone_raise phone (Record_init name) Hbad).
    reflexivity.
Qed.

Lemma C9_add_invalid_phone_unchanged_witness :
  add_contact [u "bob"; u "12345"]
    (mkAddressBook
       [(u "alice", mkRecord (mkName (u "alice")) [mkPhone (u "0123456789")] None)])
  = (u "Phone number must be 10 digits",
     mkAddressBook
       [(u "alice", mkRecord (mkName (u "alice")) [mkPhone (u "0123456789")] None)])
  /\ add_contact [u "alice"; u "12345"]
    (mkAddressBook
       [(u "alice", mkRecord (mkName (u "alice")) [mkPhone (u "0123456789")] None)])
  = (u "Phone number must be 10 digits",
     mkAddressBook
       [(u "alice", mkRecord (mkName (u "alice")) [mkPhone (u "0123456789")] None)]).
Proof.
  split; apply C9_add_invalid_phone_unchanged; discriminate.
Defined.

(** C2.  In every book (a dictionary, so no key twice), for every name and
    every two valid phones [p1] and [p2], [add name p1] followed by
    [add name p2] both answer "Contact added." and leave exactly one entry
    for the name; its Record's phone list is the list the name had before
    (empty for a new name) followed by [p1] and then [p2].  The second add
    extends the Record that the first one left, without changing the keys
    of the book. *)
Theorem C2_add_twice_merges (book : AddressBook) (name p1 p2 : str) :
  dict_wf (data book) ->
  Phone_validate p1 = Ok p1 -> Phone_validate p2 = Ok p2 ->
  let before :=
    match dict_get name (data book) with Some r => phones r | None => [] end in
  let book1 := snd (add_contact [name; p1] book) in
  let book2 := snd (add_contact [name; p2] book1) in
  fst (add_contact [name; p1] book) = u "Contact added."
  /\ fst (add_contact [name; p2] book1) = u "Contact added."
  /\ count_key name book2 = 1%nat
  /\ (exists r1, dict_get name (data book1) = Some r1 /\
                 phones r1 = before ++ [mkPhone p1])
  /\ (exists r2, dict_get name (data book2) = Some r2 /\
                 phones r2 = before ++ [mkPhone p1; mkPhone p2])
  /\ dict_keys (data book2) = dict_keys (data book1)
  /\ (forall other, other <> name ->
        dict_get other (data book2) = dict_get other (data book)).
Proof.
  intros Hwf H1 H2 before book1 book2.
  subst book1 book2. rewrite (add_contact_valid book name p1 H1). cbn [fst snd].
  set (r1 := match dict_get name (data book) with
             | Some r => set_phones (phones r ++ [mkPhone p1]) r
             | None => mkRecord (mkName name) [mkPhone p1] None
             end).
  set (book1 := mkAddressBook (dict_set name r1 (data book))).
  assert (G1 : dict_get name (data book1) = Some r1)
    by apply dict_get_set_same.
  assert (P1 : phones r1 = before ++ [mkPhone p1]).
  { subst r1 before. destruct (dict_get name (data book)); reflexivity. }
  rewrite (add_contact_valid book1 name p2 H2). cbn [fst snd data].
  cbn [data] in G1. rewrite G1.
  split; [reflexivity|]. split; [reflexivity|]. split.
  { unfold count_key. cbn [data].
    apply dict_wf_one_entry
      with (v := set_phones (phones r1 ++ [mkPhone p2]) r1).
    - apply dict_set_wf. apply dict_set_wf. exact Hwf.
    - apply dict_get_set_same. }
  split; [exists r1; auto|]. split.
  { eexists. split; [apply dict_get_set_same|].
    cbn. rewrite P1, <- app_assoc. reflexivity. }
  split.
  { apply dict_keys_set_present with (v0 := r1). exact G1. }
  intros other Hne. subst book1. cbn [data].
  rewrite !dict_get_set_other by exact Hne. reflexivity.
Qed.

Lemma C2_add_twice_merges_witness :
  exists r2,
    dict_get (u "alice")
      (data (snd (add_contact [u "alice"; u "0123456798"]
                    (snd (add_contact [u "alice"; u "0123456789"]
                            AddressBook_new)))))
    = Some r2
    /\ phones r2 = [] ++ [mkPhone (u "0123456789"); mkPhone (u "0123456798")].
Proof.
  assert (Hwf : dict_wf (data AddressBook_new)) by constructor.
  assert (H1 : Phone_validate (u "0123456789") = Ok (u "0123456789"))
    by reflexivity.
  assert (H2 : Phone_validate (u "0123456798") = Ok (u "0123456798"))
    by reflexivity.
  exact (proj1 (proj2 (proj2 (proj2 (proj2
    (C2_add_twice_merges AddressBook_new (u "alice")
       (u "0123456789") (u "0123456798") Hwf H1 H2)))))).
Defined.

(** ** The invariant of the book *)

(** Unfold a handler down to its calls on the Records of the book. *)
Ltac run_calls :=
  cbv beta iota delta
    [add_contact_body change_contact_body add_birthday_body
     remove_phone_of AddressBook_delete AddressBook_find
     bind get ret raise lift modify].

Lemma keyed_get (book : AddressBook) (k : str) (r : Record_) :
  keyed_by_name book -> dict_get k (data book) = Some r ->
  name_value (name r) = k.
Proof.
  unfold keyed_by_name. intros Hk G. apply dict_get_in in G.
  rewrite Forall_forall in Hk. exact (Hk _ G).
Qed.

Lemma book_inv_set (book : AddressBook) (k : str) (r : Record_) :
  book_inv book -> name_value (name r) = k ->
  book_inv (mkAddressBook (dict_set k r (data book))).
Proof.
  intros [Hwf Hk] Hr. split; cbn [data].
  - apply dict_set_wf. exact Hwf.
  - unfold keyed_by_name in *. cbn [data]. apply Forall_forall.
    intros [k0 r0] Hin. apply dict_set_in in Hin as [[-> ->] | Hin].
    + exact Hr.
    + rewrite Forall_forall in Hk. exact (Hk _ Hin).
Qed.

Lemma book_inv_del (book : AddressBook) (k : str) :
  book_inv book -> book_inv (mkAddressBook (dict_del k (data book))).
Proof.
  intros [Hwf Hk]. split; cbn [data].
  - apply dict_del_wf. exact Hwf.
  - unfold keyed_by_name in *. cbn [data]. apply Forall_forall.
    intros [k0 r0] Hin. apply dict_del_in in Hin.
    rewrite Forall_forall in Hk. exact (Hk _ Hin).
Qed.

(** No method of [Record] assigns [self.name]. *)
Lemma Record_add_phone_name (phone : str) (r : Record_) :
  name (snd (Record_add_phone phone r)) = name r.
Proof.
  unfold Record_add_phone, bind, lift, modify.
  destruct (Phone_init phone); reflexivity.
Qed.

Lemma Record_edit_phone_name (old_phone new_phone : str) (r : Record_) :
  name (snd (Record_edit_phone old_phone new_phone r)) = name r.
Proof.
  unfold Record_edit_phone, bind, get, lift, modify, ret.
  destruct (edit_first old_phone new_phone (phones r)) as [[ps|]|e];
    reflexivity.
Qed.

Lemma Record_remove_phone_name (phone : str) (r : Record_) :
  name (snd (Record_remove_phone phone r)) = name r.
Proof.
  unfold Record_remove_phone, bind, get, modify, ret.
  destruct (remove_first phone (phones r)); reflexivity.
Qed.

Lemma Record_add_birthday_name (text : str) (r : Record_) :
  name (snd (Record_add_birthday text r)) = name r.
Proof.
  unfold Record_add_birthday, bind, lift, modify.
  destruct (Birthday_init text); reflexivity.
Qed.

(** A method that keeps the name, called on a Record of the book, keeps
    the invariant, whether it returns or raises. *)
Lemma on_record_inv {A} (k : str) (r : Record_) (m : M Record_ A)
  (book : AddressBook) :
  book_inv book -> dict_get k (data book) = Some r ->
  name (snd (m r)) = name r ->
  book_inv (snd (on_record k r m book)).
Proof.
  intros Hinv G Hname. unfold on_record.
  destruct (m r) as [res r'] eqn:E. cbn [snd] in *.
  apply book_inv_set; [exact Hinv|].
  rewrite Hname. apply (keyed_get book); [apply Hinv | exact G].
Qed.

Lemma snd_input_error (func : M AddressBook str) (book : AddressBook) :
  snd (input_error func book) = snd (func book).
Proof.
  unfold input_error. destruct (func book) as [[text | [msg | msg |]] book'];
    reflexivity.
Qed.

Lemma add_contact_inv (args : list str) (book : AddressBook) :
  book_inv book -> book_inv (snd (add_contact args book)).
Proof.
  intros Hinv.
  destruct args as [|name [|phone [|x args]]]; try exact Hinv.
  destruct (Phone_validate_cases phone) as [[Hv _] | [Hv _]].
  - rewrite (add_contact_valid book name phone Hv). cbn [snd].
    apply book_inv_set; [exact Hinv|].
    destruct (dict_get name (data book)) as [r|] eqn:G; [|reflexivity].
    cbn. apply (keyed_get book); [apply Hinv | exact G].
  - rewrite add_contact_invalid; [exact Hinv | congruence].
Qed.

Lemma change_contact_inv (args : list str) (book : AddressBook) :
  book_inv book -> book_inv (snd (change_contact args book)).
Proof.
  intros Hinv. unfold change_contact. rewrite snd_input_error.
  destruct args as [|name [|old_phone [|new_phone [|x args]]]]; try exact Hinv.
  run_calls.
  destruct (dict_get name (data book)) as [r|] eqn:G; [|exact Hinv].
  pose proof (on_record_inv name r (Record_edit_phone old_phone new_phone)
                book Hinv G (Record_edit_phone_name _ _ r)) as H.
  destruct (on_record name r (Record_edit_phone old_phone new_phone) book)
    as [[[|]|e] book']; exact H.
Qed.

Lemma add_birthday_inv (args : list str) (book : AddressBook) :
  book_inv book -> book_inv (snd (add_birthday args book)).
Proof.
  intros Hinv. unfold add_birthday. rewrite snd_input_error.
  destruct args as [|name [|text [|x args]]]; try exact Hinv.
  run_calls.
  destruct (dict_get name (data book)) as [r|] eqn:G; [|exact Hinv].
  pose proof (on_record_inv name r (Record_add_birthday text)
                book Hinv G (Record_add_birthday_name _ r)) as H.
  destruct (on_record name r (Record_add_birthday text) book)
    as [[[]|e] book']; exact H.
Qed.

Lemma delete_inv (name : str) (book : AddressBook) :
  book_inv book -> book_inv (snd (AddressBook_delete name book)).
Proof.
  intros Hinv. run_calls.
  destruct (dict_get name (data book)); [|exact Hinv].
  apply book_inv_del. exact Hinv.
Qed.

Lemma remove_phone_of_inv (name phone : str) (book : AddressBook) :
  book_inv book -> book_inv (snd (remove_phone_of name phone book)).
Proof.
  intros Hinv. run_calls.
  destruct (dict_get name (data book)) as [r|] eqn:G; [|exact Hinv].
  apply on_record_inv; [exact Hinv | exact G | apply Record_remove_phone_name].
Qed.

Lemma run_op_inv (o : op) (book : AddressBook) :
  book_inv book -> book_inv (run_op o book).
Proof.
  destruct o; simpl.
  - apply add_contact_inv.
  - apply change_contact_inv.
  - apply add_birthday_inv.
  - apply delete_inv.
  - apply remove_phone_of_inv.
Qed.

Lemma dict_wf_count_le {V} (d : dict V) (k : str) :
  dict_wf d ->
  (length (filter (fun kv => str_eqb (fst kv) k) d) <= 1)%nat.
Proof.
  intros Hwf. destruct (dict_get k d) as [v|] eqn:G.
  - rewrite (dict_wf_one_entry d k v Hwf G). lia.
  - apply dict_get_none in G.
    assert (H : filter (fun kv : str * V => str_eqb (fst kv) k) d = []).
    { clear Hwf. induction d as [|[k1 v1] d IH]; simpl; [reflexivity|].
      simpl in G. destruct (str_eqb k1 k) eqn:E.
      - apply str_eqb_eq in E. tauto.
      - apply IH. tauto. }
    rewrite H. simpl. lia.
Qed.

(** C8.  In every book reached from the empty one by [add], [change]
    (edit_phone), [add-birthday] (set_birthday), [delete] (remove) and
    [remove_phone], with any arguments, failed calls included, no name is
    the key of two entries and every Record is stored under its own name. *)
Theorem C8_reachable_keys_unique (book : AddressBook) :
  reachable book ->
  (forall k, (count_key k book <= 1)%nat)
  /\ NoDup (dict_keys (data book))
  /\ (forall k r, In (k, r) (data book) -> name_value (name r) = k).
Proof.
  intros Hreach.
  assert (Hinv : book_inv book).
  { induction Hreach as [|book o _ IH].
    - split; [constructor | constructor].
    - apply run_op_inv. exact IH. }
  destruct Hinv as [Hwf Hk]. split; [|split].
  - intros k. apply dict_wf_count_le. exact Hwf.
  - exact Hwf.
  - intros k r Hin. unfold keyed_by_name in Hk. rewrite Forall_forall in Hk.
    exact (Hk _ Hin).
Qed.

Lemma C8_reachable_keys_unique_witness :
  NoDup (dict_keys (data
    (run_op (OpChange [u "alice"; u "0123456789"; u "1112223333"])
      (run_op (OpAdd [u "alice"; u "0123456798"])
        (run_op (OpAdd [u "bob"; u "5550001111"])
          (run_op (OpAdd [u "alice"; u "0123456789"]) AddressBook_new)))))).
Proof.
  apply C8_reachable_keys_unique.
  repeat apply reach_step. apply reach_new.
Defined.

(** ** The birthday window *)

(** When the loop returns, it has kept the Records in the window, in the
    order of the book, and every birthday could be moved to this year. *)
Lemma upcoming_loop_ok (today : datetime) (records upcoming result : list Record_) :
  upcoming_loop today records upcoming = Ok result ->
  result = upcoming ++ filter (in_window today) records
  /\ (forall record b, In record records -> birthday record = Some b ->
      exists delta, days_until (birthday_value b) today = Ok delta).
Proof.
  revert upcoming result.
  induction records as [|record rest IH]; intros upcoming result;
    cbn [upcoming_loop filter].
  - intros [= <-]. rewrite app_nil_r. split; [reflexivity|].
    intros ? ? [].
  - assert (Hw : in_window today record =
                 match birthday record with
                 | Some b =>
                     match datetime_replace_year (birthday_value b) (year today) with
                     | Ok c => (0 <=? td_days (datetime_sub c today))
                               && (td_days (datetime_sub c today) <=? 7)
                     | Raise _ => false
                     end
                 | None => false
                 end).
    { unfold in_window, days_until. destruct (birthday record); [|reflexivity].
      destruct (datetime_replace_year _ _); reflexivity. }
    rewrite Hw. clear Hw.
    assert (Hhead : forall b c,
               birthday record = Some b ->
               datetime_replace_year (birthday_value b) (year today) = Ok c ->
               forall r b', record = r \/ In r rest ->
                 (forall r0 b0, In r0 rest -> birthday r0 = Some b0 ->
                    exists delta, days_until (birthday_value b0) today = Ok delta) ->
                 birthday r = Some b' ->
                 exists delta, days_until (birthday_value b') today = Ok delta).
    { intros b c B R r b' [<- | Hin] Hall Hb.
      - rewrite B in Hb. injection Hb as <-. unfold days_until. rewrite R. eauto.
      - exact (Hall r b' Hin Hb). }
    destruct (birthday record) as [b|] eqn:B.
    + destruct (datetime_replace_year (birthday_value b) (year today))
        as [c|e] eqn:R; [|discriminate].
      destruct ((0 <=? td_days (datetime_sub c today))
                && (td_days (datetime_sub c today) <=? 7)) eqn:W;
        intros H; apply IH in H as [-> Hall]; split.
      * rewrite <- app_assoc. reflexivity.
      * intros r b' Hin Hb. exact (Hhead b c eq_refl R r b' Hin Hall Hb).
      * reflexivity.
      * intros r b' Hin Hb. exact (Hhead b c eq_refl R r b' Hin Hall Hb).
    + intros H; apply IH in H as [-> Hall]; split; [reflexivity|].
      intros r b' [<- | Hin] Hb; [congruence | exact (Hall r b' Hin Hb)].
Qed.

(** The loop raises as soon as one birthday cannot be moved to this year. *)
Lemma upcoming_loop_raise (today : datetime) (records upcoming : list Record_)
  (record : Record_) (b : Birthday) (e : exn) :
  In record records -> birthday record = Some b ->
  days_until (birthday_value b) today = Raise e ->
  exists e', upcoming_loop today records upcoming = Raise e'.
Proof.
  intros Hin Hb Hd.
  destruct (upcoming_loop today records upcoming) as [result|e'] eqn:E;
    [|eauto].
  apply upcoming_loop_ok in E as [_ Hall].
  destruct (Hall record b Hin Hb) as [delta Hdelta]. congruence.
Qed.

(** Whole days between two moments of the same calendar arithmetic. *)
Lemma td_days_bounds (days seconds microseconds : Z) :
  -86400 < seconds <= 0 -> -1000000 < microseconds <= 0 ->
  days - 1 <= td_days (timedelta_new days seconds microseconds) <= days
  /\ (td_days (timedelta_new days seconds microseconds) = days <->
      seconds = 0 /\ microseconds = 0).
Proof.
  intros Hs Hus. unfold timedelta_new. cbn [td_days].
  set (total := (days * 86400 + seconds) * 1000000 + microseconds).
  assert (H1 : total = 1000000 * (total / 1000000) + total mod 1000000)
    by (apply Z.div_mod; lia).
  assert (H2 : 0 <= total mod 1000000 < 1000000)
    by (apply Z.mod_pos_bound; lia).
  set (secs := total / 1000000) in *.
  assert (H3 : secs = 86400 * (secs / 86400) + secs mod 86400)
    by (apply Z.div_mod; lia).
  assert (H4 : 0 <= secs mod 86400 < 86400)
    by (apply Z.mod_pos_bound; lia).
  subst total. lia.
Qed.

Lemma check_time_fields_ok (h mi s us : Z) :
  check_time_fields h mi s us = Ok tt <->
  0 <= h <= 23 /\ 0 <= mi <= 59 /\ 0 <= s <= 59 /\ 0 <= us <= 999999.
Proof.
  unfold check_time_fields, in_range.
  destruct (0 <=? h) eqn:H1, (h <=? 23) eqn:H2,
           (0 <=? mi) eqn:H3, (mi <=? 59) eqn:H4,
           (0 <=? s) eqn:H5, (s <=? 59) eqn:H6,
           (0 <=? us) eqn:H7, (us <=? 999999) eqn:H8; cbn;
    rewrite ?Z.leb_le, ?Z.leb_gt in *;
    (split; [try discriminate; intros _; lia | try reflexivity; lia]).
Qed.

(** From a moment of a day in [today]'s year to midnight of a day of that
    year: the difference of the two dates, less one day unless the moment
    is midnight. *)
Lemma days_until_same_year (b : datetime) (y m d h mi s us : Z) (c : datetime) :
  datetime_replace_year b y = Ok c ->
  hour c = 0 -> minute c = 0 -> second c = 0 -> microsecond c = 0 ->
  check_time_fields h mi s us = Ok tt ->
  exists delta,
    days_until b (mkDatetime y m d h mi s us) = Ok delta
    /\ toordinal c - ymd2ord y m d - 1 <= delta <= toordinal c - ymd2ord y m d
    /\ (delta = toordinal c - ymd2ord y m d <->
        h = 0 /\ mi = 0 /\ s = 0 /\ us = 0).
Proof.
  intros R Hh Hmi Hs Hus Ht. apply check_time_fields_ok in Ht.
  unfold days_until. cbn [year]. rewrite R.
  eexists. split; [reflexivity|].
  unfold datetime_sub, seconds_of_day, toordinal at 2.
  cbn [year month day hour minute second microsecond].
  rewrite Hh, Hmi, Hs, Hus.
  pose proof (td_days_bounds (toordinal c - ymd2ord y m d)
                (0 + 0 * 60 + 0 * 3600 - (s + mi * 60 + h * 3600)) (0 - us))
    as [Hb Heq]; [lia | lia |].
  split; [exact Hb|]. rewrite Heq. lia.
Qed.

(** C1 (as amended).  Whenever the query returns, it returns the Records
    in the window in the order of the book: a Record with a birthday is in
    the list if and only if [0 <= delta_days <= 7], where [delta_days] is
    the number of whole days from [today], a date with its time of day, to
    midnight of the birthday moved to [today]'s year.  A Record with
    birthday 25.06.1990 is included at every time of 20.06.2024 ([delta] is
    5 at midnight and 4 later that day) and excluded at every time of
    30.06.2024 ([delta] is negative). *)
Theorem C1_upcoming_birthdays :
  (forall book today result,
     AddressBook_get_upcoming_birthdays today book = Ok result ->
     result = filter (in_window today) (dict_values (data book))
     /\ forall record b,
          In record (dict_values (data book)) -> birthday record = Some b ->
          exists delta,
            days_until (birthday_value b) today = Ok delta
            /\ (In record result <-> 0 <= delta <= 7))
  /\ (forall h mi s us,
        check_time_fields h mi s us = Ok tt ->
        exists delta,
          days_until june25_1990 (mkDatetime 2024 6 20 h mi s us) = Ok delta
          /\ 0 <= delta <= 7
          /\ (h = 0 /\ mi = 0 /\ s = 0 /\ us = 0 -> delta = 5)
          /\ (~ (h = 0 /\ mi = 0 /\ s = 0 /\ us = 0) -> delta = 4))
  /\ (forall h mi s us,
        check_time_fields h mi s us = Ok tt ->
        exists delta,
          days_until june25_1990 (mkDatetime 2024 6 30 h mi s us) = Ok delta
          /\ delta < 0).
Proof.
  split; [|split].
  - intros book today result H.
    apply upcoming_loop_ok in H as [-> Hall]. cbn [app].
    split; [reflexivity|].
    intros record b Hin Hb. destruct (Hall record b Hin Hb) as [delta Hd].
    exists delta. split; [exact Hd|].
    rewrite filter_In. unfold in_window. rewrite Hb, Hd.
    rewrite andb_true_iff, !Z.leb_le. tauto.
  - intros h mi s us Ht.
    destruct (days_until_same_year june25_1990 2024 6 20 h mi s us
                (mkDatetime 2024 6 25 0 0 0 0))
      as (delta & Hd & Hb & Heq); try reflexivity; [exact Ht|].
    change (toordinal (mkDatetime 2024 6 25 0 0 0 0) - ymd2ord 2024 6 20)
      with 5 in *.
    exists delta. split; [exact Hd|]. split; [lia|]. split.
    + intros Hm. apply Heq. exact Hm.
    + intros Hm. rewrite <- Heq in Hm. lia.
  - intros h mi s us Ht.
    destruct (days_until_same_year june25_1990 2024 6 30 h mi s us
                (mkDatetime 2024 6 25 0 0 0 0))
      as (delta & Hd & Hb & Heq); try reflexivity; [exact Ht|].
    change (toordinal (mkDatetime 2024 6 25 0 0 0 0) - ymd2ord 2024 6 30)
      with (-5) in *.
    exists delta. split; [exact Hd | lia].
Qed.

Lemma C1_upcoming_birthdays_witness :
  AddressBook_get_upcoming_birthdays (mkDatetime 2024 6 20 10 30 0 0) book_alice
  = Ok [alice]
  /\ [alice] = filter (in_window (mkDatetime 2024 6 20 10 30 0 0))
                      (dict_values (data book_alice))
  /\ exists delta,
       days_until june25_1990 (mkDatetime 2024 6 20 10 30 0 0) = Ok delta
       /\ 0 <= delta <= 7.
Proof.
  split; [reflexivity|]. split.
  - apply (proj1 C1_upcoming_birthdays book_alice
             (mkDatetime 2024 6 20 10 30 0 0) [alice]).
    reflexivity.
  - destruct (proj1 (proj2 C1_upcoming_birthdays) 10 30 0 0 eq_refl)
      as (delta & Hd & Hb & _).
    exists delta. split; [exact Hd | exact Hb].
Defined.

(** C1 as stated fails in two ways.  With a birthday on 29 February in the
    book and [today] in 2023, the query raises, so it includes no Record,
    not even one whose [delta_days] is 2.  And at noon of 20.06.2024 the
    [delta_days] of a birthday on 25.06 is 4, not 5. *)
Lemma C1_counterexample :
  (In bob (dict_values (data book_carol_bob))
   /\ birthday bob = Some (mkBirthday march3_1990)
   /\ days_until march3_1990 (mkDatetime 2023 3 1 0 0 0 0) = Ok 2
   /\ AddressBook_get_upcoming_birthdays (mkDatetime 2023 3 1 0 0 0 0)
        book_carol_bob
      = Raise (ValueError "day is out of range for month"))
  /\ days_until june25_1990 (mkDatetime 2024 6 20 12 0 0 0) = Ok 4.
Proof.
  split; [|reflexivity].
  split; [right; left; reflexivity|]. repeat split.
Qed.

(** ** When the query raises *)

Lemma check_date_fields_ok (y m d : Z) :
  check_date_fields y m d = Ok tt <->
  1 <= y <= 9999 /\ 1 <= m <= 12 /\ 1 <= d <= days_in_month y m.
Proof.
  unfold check_date_fields, in_range.
  destruct (1 <=? y) eqn:H1, (y <=? 9999) eqn:H2,
           (1 <=? m) eqn:H3, (m <=? 12) eqn:H4,
           (1 <=? d) eqn:H5, (d <=? days_in_month y m) eqn:H6; cbn;
    rewrite ?Z.leb_le, ?Z.leb_gt in *;
    (split; [try discriminate; intros _; lia | try reflexivity; lia]).
Qed.

Lemma datetime_new_ok (y m d h mi s us : Z) (dt : datetime) :
  datetime_new y m d h mi s us = Ok dt <->
  check_date_fields y m d = Ok tt /\ check_time_fields h mi s us = Ok tt
  /\ dt = mkDatetime y m d h mi s us.
Proof.
  unfold datetime_new.
  destruct (check_date_fields y m d) as [[]|e]; [|split; [discriminate|]].
  - destruct (check_time_fields h mi s us) as [[]|e].
    + split; [intros [= <-]; auto | intros (_ & _ & ->); reflexivity].
    + split; [discriminate | intros (_ & H & _); discriminate H].
  - intros (H & _); discriminate H.
Qed.

Lemma days_in_month_year (y y' m : Z) :
  m <> 2 -> days_in_month y' m = days_in_month y m.
Proof.
  intros Hm. unfold days_in_month.
  replace (m =? 2) with false by (symmetry; apply Z.eqb_neq; exact Hm).
  reflexivity.
Qed.

(** [replace(year=y)] on a valid date: it succeeds unless the date is
    29 February and [y] is not a leap year. *)
Lemma replace_year_ok (b : datetime) (y : Z) :
  valid_datetime b -> 1 <= y <= 9999 ->
  (month b = 2 -> day b = 29 -> is_leap y = true) ->
  datetime_replace_year b y =
  Ok (mkDatetime y (month b) (day b) (hour b) (minute b) (second b)
                 (microsecond b)).
Proof.
  unfold valid_datetime, datetime_replace_year.
  intros Hv Hy Hleap. apply datetime_new_ok in Hv as (Hd & Ht & _).
  apply datetime_new_ok. split; [|split; [exact Ht | reflexivity]].
  apply check_date_fields_ok in Hd as (_ & Hm & Hday).
  apply check_date_fields_ok. split; [exact Hy|]. split; [exact Hm|].
  destruct (Z.eq_dec (month b) 2) as [E|E].
  - rewrite E in *. unfold days_in_month in *. cbn [Z.eqb Pos.eqb] in *.
    destruct (is_leap y) eqn:Ly; [destruct (is_leap (year b)); lia|].
    destruct (is_leap (year b)); [|lia].
    destruct (Z.eq_dec (day b) 29) as [E29|E29]; [|lia].
    specialize (Hleap eq_refl E29). discriminate.
  - rewrite (days_in_month_year (year b) y (month b) E). exact Hday.
Qed.

Lemma replace_year_feb29 (b : datetime) (y : Z) :
  1 <= y <= 9999 -> month b = 2 -> day b = 29 -> is_leap y = false ->
  datetime_replace_year b y = Raise (ValueError "day is out of range for month").
Proof.
  intros Hy Hm Hd Hleap. unfold datetime_replace_year, datetime_new.
  rewrite Hm, Hd. unfold check_date_fields, in_range, days_in_month.
  rewrite Hleap.
  replace (1 <=? y) with true by (symmetry; apply Z.leb_le; lia).
  replace (y <=? 9999) with true by (symmetry; apply Z.leb_le; lia).
  reflexivity.
Qed.

Lemma upcoming_loop_returns (today : datetime) (records upcoming : list Record_) :
  (forall record b, In record records -> birthday record = Some b ->
     exists c, datetime_replace_year (birthday_value b) (year today) = Ok c) ->
  exists result, upcoming_loop today records upcoming = Ok result.
Proof.
  revert upcoming.
  induction records as [|record rest IH]; intros upcoming Hall;
    cbn [upcoming_loop]; [eauto|].
  assert (Hrest : forall r b, In r rest -> birthday r = Some b ->
            exists c, datetime_replace_year (birthday_value b) (year today) = Ok c)
    by (intros r b Hin; apply Hall; right; exact Hin).
  destruct (birthday record) as [b|] eqn:B; [|apply IH; exact Hrest].
  destruct (Hall record b (or_introl eq_refl) B) as [c R]. rewrite R.
  destruct ((0 <=? td_days (datetime_sub c today))
            && (td_days (datetime_sub c today) <=? 7));
    apply IH; exact Hrest.
Qed.

(** The exact condition under which the query returns a list: no stored
    birthday is 29 February, or the year of [today] is a leap year. *)
Lemma upcoming_birthdays_returns_iff (book : AddressBook) (today : datetime) :
  (forall record b, In record (dict_values (data book)) ->
     birthday record = Some b -> valid_datetime (birthday_value b)) ->
  1 <= year today <= 9999 ->
  (exists result, AddressBook_get_upcoming_birthdays today book = Ok result)
  <->
  (forall record b, In record (dict_values (data book)) ->
     birthday record = Some b ->
     month (birthday_value b) = 2 -> day (birthday_value b) = 29 ->
     is_leap (year today) = true).
Proof.
  intros Hvalid Hy. unfold AddressBook_get_upcoming_birthdays. split.
  - intros [result H] record b Hin Hb Hm Hd.
    apply upcoming_loop_ok in H as [_ Hall].
    destruct (Hall record b Hin Hb) as [delta Hdelta].
    destruct (is_leap (year today)) eqn:L; [reflexivity|].
    unfold days_until in Hdelta.
    rewrite (replace_year_feb29 _ _ Hy Hm Hd L) in Hdelta. discriminate.
  - intros Hleap. apply upcoming_loop_returns.
    intros record b Hin Hb. eexists.
    apply replace_year_ok; [exact (Hvalid record b Hin Hb) | exact Hy |].
    exact (Hleap record b Hin Hb).
Qed.

Example book_carol_bob_commands :
  run_op (OpAddBirthday [u "bob"; u "03.03.1990"])
    (run_op (OpAdd [u "bob"; u "5550001111"])
      (run_op (OpAddBirthday [u "carol"; u "29.02.2000"])
        (run_op (OpAdd [u "carol"; u "1112223333"]) AddressBook_new)))
  = book_carol_bob.
Proof. vm_compute. reflexivity. Qed.

(** C10, evaluated where it fails.  The validator accepts 29.02.2000; the
    book holding it is built by the commands [add] and [add-birthday]; on
    1 March 2023 the query raises [ValueError("day is out of range for
    month")] instead of returning a list, and the [birthdays] command
    answers with that message. *)
Theorem C10_feb29_aborts_query :
  Birthday_validate (u "29.02.2000") = Ok feb29_2000
  /\ reachable book_carol_bob
  /\ valid_datetime (mkDatetime 2023 3 1 0 0 0 0)
  /\ AddressBook_get_upcoming_birthdays (mkDatetime 2023 3 1 0 0 0 0)
       book_carol_bob
     = Raise (ValueError "day is out of range for month")
  /\ forall pad_year,
       birthdays pad_year (mkDatetime 2023 3 1 0 0 0 0) book_carol_bob
       = (u "day is out of range for month", book_carol_bob).
Proof.
  split; [reflexivity|]. split.
  { rewrite <- book_carol_bob_commands. repeat apply reach_step. apply reach_new. }
  split; [reflexivity|]. split; [reflexivity|].
  intros pad_year. reflexivity.
Qed.

(** ** [Birthday.validate] *)

Lemma match_seq_sound (a : list cls) (s t r : str) :
  match_seq a s = Some (t, r) -> s = t ++ r /\ cls_matches a t.
Proof.
  unfold cls_matches. revert s t r.
  induction a as [|k a IH]; intros s t r; cbn [match_seq].
  - intros [= <- <-]. split; [reflexivity | constructor].
  - destruct s as [|c s]; [discriminate|].
    destruct (cls_match k c) eqn:K; [|discriminate].
    destruct (match_seq a s) as [[t' r']|] eqn:E; [|discriminate].
    intros [= <- <-]. destruct (IH s t' r' E) as [-> Hm].
    split; [reflexivity | constructor; assumption].
Qed.

Lemma match_seq_complete (a : list cls) (t r : str) :
  cls_matches a t -> match_seq a (t ++ r) = Some (t, r).
Proof.
  unfold cls_matches. induction 1 as [|k c a t Hk Hm IH]; cbn; [reflexivity|].
  rewrite Hk, IH. reflexivity.
Qed.

Lemma match_seq_spec (a : list cls) (s t r : str) :
  match_seq a s = Some (t, r) <-> s = t ++ r /\ cls_matches a t.
Proof.
  split; [apply match_seq_sound|].
  intros [-> Hm]. apply match_seq_complete. exact Hm.
Qed.

Lemma group_spec (alts : list (list cls)) (s t r : str) :
  In (t, r) (group alts s) <-> s = t ++ r /\ group_text alts t.
Proof.
  unfold group, group_text. rewrite in_flat_map. split.
  - intros (a & Ha & Hin).
    destruct (match_seq a s) as [[t' r']|] eqn:E; [|contradiction].
    destruct Hin as [[= -> ->] | []].
    apply match_seq_spec in E as [-> Hm]. eauto.
  - intros (-> & a & Ha & Hm). exists a. split; [exact Ha|].
    assert (E : match_seq a (t ++ r) = Some (t, r))
      by (apply match_seq_spec; auto).
    rewrite E. left. reflexivity.
Qed.

Lemma literal_spec (c : char) (s r : str) :
  In r (literal c s) <-> s = c :: r.
Proof.
  unfold literal. destruct s as [|x s]; [split; [contradiction | discriminate]|].
  destruct (x =? c)%N eqn:E.
  - apply N.eqb_eq in E. subst x. split.
    + intros [-> | []]. reflexivity.
    + intros [= ->]. left. reflexivity.
  - apply N.eqb_neq in E. split; [contradiction | congruence].
Qed.

(** The ways to match are the ways to cut the text into day, dot, month,
    dot, year and a rest. *)
Lemma strptime_matches_spec (s d m y rest : str) :
  In (d, m, y, rest) (strptime_matches s) <->
  s = d ++ DOT :: m ++ DOT :: y ++ rest
  /\ group_text re_d d /\ group_text re_m m /\ group_text re_Y y.
Proof.
  unfold strptime_matches. rewrite in_flat_map. split.
  - intros ([d' r1] & Hd & H). apply group_spec in Hd as [-> Hd].
    apply in_flat_map in H as (r2 & H2 & H). apply literal_spec in H2.
    apply in_flat_map in H as ([m' r3] & Hm & H).
    apply group_spec in Hm as [-> Hm].
    apply in_flat_map in H as (r4 & H4 & H). apply literal_spec in H4.
    apply in_map_iff in H as ([y' r5] & [= <- <- <- <-] & Hy).
    apply group_spec in Hy as [-> Hy].
    cbn [fst snd] in *. subst. auto.
  - intros (-> & Hd & Hm & Hy).
    exists (d, DOT :: m ++ DOT :: y ++ rest). split.
    { apply group_spec. auto. }
    apply in_flat_map. exists (m ++ DOT :: y ++ rest). split.
    { apply literal_spec. reflexivity. }
    apply in_flat_map. exists (m, DOT :: y ++ rest). split.
    { apply group_spec. auto. }
    apply in_flat_map. exists (y ++ rest). split.
    { apply literal_spec. reflexivity. }
    apply in_map_iff. exists (y, rest). split; [reflexivity|].
    apply group_spec. auto.
Qed.

(** No class of the day and month groups matches a dot. *)
Lemma group_text_no_dot (alts : list (list cls)) (t : str) :
  forallb (forallb (fun k => negb (cls_match k DOT))) alts = true ->
  group_text alts t -> ~ In DOT t.
Proof.
  intros Hall (a & Ha & Hm).
  rewrite forallb_forall in Hall. specialize (Hall a Ha).
  rewrite forallb_forall in Hall. clear Ha.
  induction Hm as [|k c a t Hk Hm IH]; [intros []|].
  intros [-> | Hin].
  - specialize (Hall k (or_introl eq_refl)). rewrite Hk in Hall. discriminate.
  - apply IH; [|exact Hin]. intros k' Hk'. apply Hall. right. exact Hk'.
Qed.

Lemma group_text_length (alts : list (list cls)) (n : nat) (t : str) :
  Forall (fun a => length a = n) alts -> group_text alts t -> length t = n.
Proof.
  intros Hall (a & Ha & Hm). rewrite Forall_forall in Hall.
  rewrite <- (Hall a Ha). symmetry. exact (Forall2_length Hm).
Qed.

(** A text is cut at its first dot in one way only. *)
Lemma cut_at_dot_unique (d d' r r' : str) :
  d ++ DOT :: r = d' ++ DOT :: r' -> ~ In DOT d -> ~ In DOT d' ->
  d = d' /\ r = r'.
Proof.
  revert d'. induction d as [|c d IH]; intros [|c' d']; cbn; intros E Hd Hd'.
  - injection E as <-. auto.
  - injection E as <- _. tauto.
  - injection E as -> _. tauto.
  - injection E as <- E. destruct (IH d' E) as [-> ->]; tauto.
Qed.

Lemma app_same_length {A} (y y' r r' : list A) :
  y ++ r = y' ++ r' -> length y = length y' -> y = y' /\ r = r'.
Proof.
  revert y'. induction y as [|c y IH]; intros [|c' y']; cbn;
    try discriminate; intros E L; [auto|].
  injection E as <- E. injection L as L.
  destruct (IH y' E L) as [-> ->]. auto.
Qed.

Lemma strptime_cut_unique (d m y rest d' m' y' rest' : str) :
  d ++ DOT :: m ++ DOT :: y ++ rest = d' ++ DOT :: m' ++ DOT :: y' ++ rest' ->
  group_text re_d d -> group_text re_m m -> group_text re_Y y ->
  group_text re_d d' -> group_text re_m m' -> group_text re_Y y' ->
  (d, m, y, rest) = (d', m', y', rest').
Proof.
  intros E Hd Hm Hy Hd' Hm' Hy'.
  apply cut_at_dot_unique in E as [<- E];
    try (apply (group_text_no_dot re_d); [reflexivity | assumption]).
  apply cut_at_dot_unique in E as [<- E];
    try (apply (group_text_no_dot re_m); [reflexivity | assumption]).
  apply app_same_length in E as [<- <-]; [reflexivity|].
  rewrite (group_text_length re_Y 4 y), (group_text_length re_Y 4 y');
    try assumption; try reflexivity; repeat constructor.
Qed.

(** The match the engine finds is the one cut of the text. *)
Lemma strptime_matches_head (s d m y rest : str) :
  (exists others, strptime_matches s = (d, m, y, rest) :: others) <->
  s = d ++ DOT :: m ++ DOT :: y ++ rest
  /\ group_text re_d d /\ group_text re_m m /\ group_text re_Y y.
Proof.
  rewrite <- strptime_matches_spec. split.
  - intros [others ->]. left. reflexivity.
  - intros Hin. pose proof Hin as Hcut.
    apply strptime_matches_spec in Hcut as (Hs & Hd & Hm & Hy).
    destruct (strptime_matches s) as [|[[[d' m'] y'] rest'] others] eqn:E;
      [contradiction|].
    assert (Hin' : In (d', m', y', rest') (strptime_matches s))
      by (rewrite E; left; reflexivity).
    apply strptime_matches_spec in Hin' as (Hs' & Hd' & Hm' & Hy').
    rewrite Hs' in Hs.
    rewrite (strptime_cut_unique d' m' y' rest' d m y rest Hs); auto.
    eauto.
Qed.

Lemma datetime_new_raises (y m d h mi s us : Z) (e : exn) :
  datetime_new y m d h mi s us = Raise e -> exists msg, e = ValueError msg.
Proof.
  unfold datetime_new, check_date_fields, check_time_fields.
  repeat match goal with
         | |- context [if ?b then _ else _] => destruct b
         end; cbn; intros [= <-]; eauto.
Qed.

Lemma strptime_dmY_raises (s : str) (e : exn) :
  strptime_dmY s = Raise e -> exists msg, e = ValueError msg.
Proof.
  unfold strptime_dmY.
  destruct (strptime_matches s) as [|[[[d m] y] [|c rest]] others];
    try (intros [= <-]; eauto).
  destruct (py_int y), (py_int m), (py_int d);
    try (intros [= <-]; eauto).
  apply datetime_new_raises.
Qed.

(** [Birthday.validate] returns what [strptime] returns, or raises its one
    error. *)
Lemma Birthday_validate_cases (s : str) :
  (exists dt, strptime_dmY s = Ok dt /\ Birthday_validate s = Ok dt)
  \/ ((forall dt, strptime_dmY s <> Ok dt)
      /\ Birthday_validate s = Raise birthday_error).
Proof.
  unfold Birthday_validate. destruct (strptime_dmY s) as [dt|e] eqn:E.
  - left. eauto.
  - right. split; [discriminate|].
    destruct (strptime_dmY_raises s e E) as [msg ->]. reflexivity.
Qed.

Lemma Birthday_validate_ok (s : str) (dt : datetime) :
  Birthday_validate s = Ok dt <-> strptime_dmY s = Ok dt.
Proof.
  destruct (Birthday_validate_cases s) as [(dt' & H1 & H2) | [H1 H2]].
  - rewrite H1, H2. reflexivity.
  - rewrite H2. split; [discriminate|]. intros H. destruct (H1 dt H).
Qed.

(** The texts [strptime] accepts, all of them. *)
Lemma strptime_dmY_spec (s : str) (dt : datetime) :
  strptime_dmY s = Ok dt <->
  exists d m y dd mm yy,
    s = d ++ DOT :: m ++ DOT :: y
    /\ group_text re_d d /\ group_text re_m m /\ group_text re_Y y
    /\ py_int d = Some dd /\ py_int m = Some mm /\ py_int y = Some yy
    /\ datetime_new yy mm dd 0 0 0 0 = Ok dt.
Proof.
  split.
  - unfold strptime_dmY.
    destruct (strptime_matches s) as [|[[[d m] y] rest] others] eqn:E;
      [discriminate|].
    assert (Hcut : exists others, strptime_matches s = (d, m, y, rest) :: others)
      by eauto.
    apply strptime_matches_head in Hcut as (Hs & Hd & Hm & Hy).
    destruct rest as [|c rest]; [|discriminate].
    rewrite app_nil_r in Hs.
    destruct (py_int y) as [yy|] eqn:Iy; [|discriminate].
    destruct (py_int m) as [mm|] eqn:Im; [|discriminate].
    destruct (py_int d) as [dd|] eqn:Id; [|discriminate].
    intros H. exists d, m, y, dd, mm, yy. auto 10.
  - intros (d & m & y & dd & mm & yy & Hs & Hd & Hm & Hy & Id & Im & Iy & H).
    assert (Hcut : exists others, strptime_matches s = (d, m, y, []) :: others).
    { apply strptime_matches_head. rewrite app_nil_r. auto. }
    destruct Hcut as [others E]. unfold strptime_dmY.
    rewrite E, Iy, Im, Id. exact H.
Qed.

(** A stored birthday is a date the constructor built, at midnight. *)
Lemma Birthday_validate_valid (s : str) (dt : datetime) :
  Birthday_validate s = Ok dt ->
  valid_datetime dt /\ hour dt = 0 /\ minute dt = 0 /\ second dt = 0
  /\ microsecond dt = 0.
Proof.
  rewrite Birthday_validate_ok, strptime_dmY_spec.
  intros (d & m & y & dd & mm & yy & _ & _ & _ & _ & _ & _ & _ & H).
  unfold valid_datetime. pose proof H as H'.
  apply datetime_new_ok in H' as (_ & _ & ->). cbn. auto.
Qed.

(** *** Texts written DD.MM.YYYY with ASCII digits *)

Lemma is_ascii_digit_bounds (c : char) :
  is_ascii_digit c = true <-> (48 <= c <= 57)%N.
Proof.
  unfold is_ascii_digit. rewrite andb_true_iff, !N.leb_le. reflexivity.
Qed.

Lemma decimal_ascii_value (c : char) :
  is_ascii_digit c = true -> decimal c = Some (c - 48)%N.
Proof.
  intros H. apply is_ascii_digit_bounds in H.
  unfold decimal. change Nd_zeros with (48%N :: tl Nd_zeros).
  cbn [decimal_in].
  replace (48 <=? c)%N with true by (symmetry; apply N.leb_le; lia).
  replace (c <? 48 + 10)%N with true by (symmetry; apply N.ltb_lt; lia).
  reflexivity.
Qed.

Lemma lstrip_digit (c : char) (t : str) :
  is_ascii_digit c = true -> lstrip (c :: t) = c :: t.
Proof.
  intros H. apply is_ascii_digit_bounds in H. cbn [lstrip].
  replace (c =? SPACE)%N with false; [reflexivity|].
  symmetry. apply N.eqb_neq. unfold SPACE. lia.
Qed.

Lemma py_int_two (a b : char) :
  is_ascii_digit a = true -> is_ascii_digit b = true ->
  py_int [a; b] = Some (10 * digit_value a + digit_value b).
Proof.
  intros Ha Hb. unfold py_int. rewrite (lstrip_digit a [b] Ha).
  cbn [int_digits].
  rewrite (decimal_ascii_value a Ha), (decimal_ascii_value b Hb).
  cbn [option_map]. f_equal. unfold digit_value.
  apply is_ascii_digit_bounds in Ha, Hb. lia.
Qed.

Lemma py_int_four (a b c d : char) :
  is_ascii_digit a = true -> is_ascii_digit b = true ->
  is_ascii_digit c = true -> is_ascii_digit d = true ->
  py_int [a; b; c; d] =
  Some (1000 * digit_value a + 100 * digit_value b + 10 * digit_value c
        + digit_value d).
Proof.
  intros Ha Hb Hc Hd. unfold py_int. rewrite (lstrip_digit a [b; c; d] Ha).
  cbn [int_digits].
  rewrite (decimal_ascii_value a Ha), (decimal_ascii_value b Hb),
    (decimal_ascii_value c Hc), (decimal_ascii_value d Hd).
  cbn [option_map]. f_equal. unfold digit_value.
  apply is_ascii_digit_bounds in Ha, Hb, Hc, Hd. lia.
Qed.

(** Take a match of a fixed sequence of classes apart. *)
Ltac invert_matches :=
  repeat match goal with
         | H : cls_matches _ _ |- _ => unfold cls_matches in H
         | H : Forall2 _ (_ :: _) _ |- _ => inversion H; subst; clear H
         | H : Forall2 _ [] _ |- _ => inversion H; subst; clear H
         | H : cls_match _ _ = true |- _ =>
             cbn [cls_match] in H;
             rewrite ?andb_true_iff, ?N.eqb_eq, ?N.leb_le in H
         end.

Ltac solve_matches :=
  unfold cls_matches; repeat constructor; cbn [cls_match];
  rewrite ?andb_true_iff, ?N.eqb_eq, ?N.leb_le;
  try (unfold SPACE; lia); try (apply ascii_digit_is_decimal; assumption).

Lemma day_text_two (a b : char) :
  is_ascii_digit a = true -> is_ascii_digit b = true ->
  group_text re_d [a; b] <-> 1 <= 10 * digit_value a + digit_value b <= 31.
Proof.
  intros Ha Hb. pose proof Ha as Ha'. pose proof Hb as Hb'.
  apply is_ascii_digit_bounds in Ha', Hb'. unfold digit_value. split.
  - intros (alt & Hin & Hm).
    destruct Hin as [<- | [<- | [<- | [<- | [<- | []]]]]];
      invert_matches; unfold SPACE in *; lia.
  - intros HD.
    destruct (N.eq_dec a 51) as [E3 | E3];
      [exists [Lit 51; InRange 48 49]%N;
       split; [simpl; tauto | solve_matches]|].
    destruct (N.eq_dec a 48) as [E0 | E0];
      [exists [Lit 48; InRange 49 57]%N;
       split; [simpl; tauto | solve_matches]|].
    exists [InRange 49 50; AnyDigit]%N.
    split; [simpl; tauto | solve_matches].
Qed.

Lemma month_text_two (a b : char) :
  is_ascii_digit a = true -> is_ascii_digit b = true ->
  group_text re_m [a; b] <-> 1 <= 10 * digit_value a + digit_value b <= 12.
Proof.
  intros Ha Hb. pose proof Ha as Ha'. pose proof Hb as Hb'.
  apply is_ascii_digit_bounds in Ha', Hb'. unfold digit_value. split.
  - intros (alt & Hin & Hm).
    destruct Hin as [<- | [<- | [<- | []]]]; invert_matches; lia.
  - intros HM.
    destruct (N.eq_dec a 48) as [E0 | E0];
      [exists [Lit 48; InRange 49 57]%N;
       split; [simpl; tauto | solve_matches]|].
    exists [Lit 49; InRange 48 50]%N.
    split; [simpl; tauto | solve_matches].
Qed.

Lemma year_text_four (a b c d : char) :
  is_ascii_digit a = true -> is_ascii_digit b = true ->
  is_ascii_digit c = true -> is_ascii_digit d = true ->
  group_text re_Y [a; b; c; d].
Proof.
  intros Ha Hb Hc Hd. exists [AnyDigit; AnyDigit; AnyDigit; AnyDigit].
  split; [left; reflexivity | solve_matches].
Qed.

Lemma ascii_digit_not_dot (c : char) : is_ascii_digit c = true -> c <> DOT.
Proof. intros H. apply is_ascii_digit_bounds in H. unfold DOT. lia. Qed.

Lemma days_in_month_le_31 (y m : Z) : 28 <= days_in_month y m <= 31.
Proof.
  unfold days_in_month.
  destruct (m =? 2); [destruct (is_leap y); lia|].
  destruct ((m =? 4) || (m =? 6) || (m =? 9) || (m =? 11)); lia.
Qed.

Lemma digit_char_value (c : char) :
  is_ascii_digit c = true -> digit_char (digit_value c) = c.
Proof.
  intros H. apply is_ascii_digit_bounds in H.
  unfold digit_char, digit_value. lia.
Qed.

Lemma digit_value_bounds (c : char) :
  is_ascii_digit c = true -> 0 <= digit_value c <= 9.
Proof.
  intros H. apply is_ascii_digit_bounds in H. unfold digit_value. lia.
Qed.

Lemma two_digits_value (a b : char) :
  is_ascii_digit a = true -> is_ascii_digit b = true ->
  two_digits (10 * digit_value a + digit_value b) = [a; b].
Proof.
  intros Ha Hb. unfold two_digits.
  pose proof (digit_value_bounds a Ha). pose proof (digit_value_bounds b Hb).
  replace ((10 * digit_value a + digit_value b) / 10) with (digit_value a)
    by (apply Z.div_unique with (r := digit_value b); lia).
  replace ((10 * digit_value a + digit_value b) mod 10) with (digit_value b)
    by (apply Z.mod_unique with (q := digit_value a); lia).
  rewrite !digit_char_value by assumption. reflexivity.
Qed.

Lemma four_digits_value (y1 y2 y3 y4 : char) :
  is_ascii_digit y1 = true -> is_ascii_digit y2 = true ->
  is_ascii_digit y3 = true -> is_ascii_digit y4 = true ->
  four_digits (1000 * digit_value y1 + 100 * digit_value y2
               + 10 * digit_value y3 + digit_value y4)
  = [y1; y2; y3; y4].
Proof.
  intros Hy1 Hy2 Hy3 Hy4. unfold four_digits.
  pose proof (digit_value_bounds y1 Hy1). pose proof (digit_value_bounds y2 Hy2).
  pose proof (digit_value_bounds y3 Hy3). pose proof (digit_value_bounds y4 Hy4).
  set (a := digit_value y1) in *. set (b := digit_value y2) in *.
  set (c := digit_value y3) in *. set (d := digit_value y4) in *.
  set (n := 1000 * a + 100 * b + 10 * c + d).
  assert (E1 : n / 1000 = a)
    by (symmetry; apply Z.div_unique with (r := 100 * b + 10 * c + d); lia).
  assert (E2 : n / 100 = 10 * a + b)
    by (symmetry; apply Z.div_unique with (r := 10 * c + d); lia).
  assert (E3 : n / 10 = 100 * a + 10 * b + c)
    by (symmetry; apply Z.div_unique with (r := d); lia).
  assert (E4 : n mod 10 = d)
    by (symmetry; apply Z.mod_unique with (q := 100 * a + 10 * b + c); lia).
  rewrite E1, E2, E3, E4.
  replace ((10 * a + b) mod 10) with b
    by (apply Z.mod_unique with (q := a); lia).
  replace ((100 * a + 10 * b + c) mod 10) with c
    by (apply Z.mod_unique with (q := 10 * a + b); lia).
  subst a b c d. rewrite !digit_char_value by assumption. reflexivity.
Qed.

Section Strict.

Variables d1 d2 m1 m2 y1 y2 y3 y4 : char.

Hypothesis Hd1 : is_ascii_digit d1 = true.
Hypothesis Hd2 : is_ascii_digit d2 = true.
Hypothesis Hm1 : is_ascii_digit m1 = true.
Hypothesis Hm2 : is_ascii_digit m2 = true.
Hypothesis Hy1 : is_ascii_digit y1 = true.
Hypothesis Hy2 : is_ascii_digit y2 = true.
Hypothesis Hy3 : is_ascii_digit y3 = true.
Hypothesis Hy4 : is_ascii_digit y4 = true.

Let D : Z := 10 * digit_value d1 + digit_value d2.
Let Mo : Z := 10 * digit_value m1 + digit_value m2.
Let Y : Z :=
  1000 * digit_value y1 + 100 * digit_value y2 + 10 * digit_value y3
  + digit_value y4.

(** A text DD.MM.YYYY is accepted exactly when it names a date that the
    constructor accepts, and it is parsed to that date. *)
Lemma strptime_strict (dt : datetime) :
  strptime_dmY (dd_mm_yyyy d1 d2 m1 m2 y1 y2 y3 y4) = Ok dt <->
  check_date_fields Y Mo D = Ok tt /\ dt = mkDatetime Y Mo D 0 0 0 0.
Proof.
  rewrite strptime_dmY_spec. split.
  - intros (d & m & y & dd & mm & yy & Hs & Hd & Hm & Hy & Id & Im & Iy & H).
    change (dd_mm_yyyy d1 d2 m1 m2 y1 y2 y3 y4)
      with ([d1; d2] ++ DOT :: [m1; m2] ++ DOT :: [y1; y2; y3; y4]) in Hs.
    apply cut_at_dot_unique in Hs as [<- Hs].
    2: { intros [E | [E | []]];
         revert E; apply ascii_digit_not_dot; assumption. }
    2: { apply (group_text_no_dot re_d); [reflexivity | exact Hd]. }
    apply cut_at_dot_unique in Hs as [<- <-].
    2: { intros [E | [E | []]];
         revert E; apply ascii_digit_not_dot; assumption. }
    2: { apply (group_text_no_dot re_m); [reflexivity | exact Hm]. }
    rewrite py_int_two in Id, Im by assumption.
    rewrite py_int_four in Iy by assumption.
    injection Id as <-. injection Im as <-. injection Iy as <-.
    apply datetime_new_ok in H as (Hdate & _ & ->). auto.
  - intros [Hdate ->].
    pose proof Hdate as Hr. apply check_date_fields_ok in Hr as (_ & HM & HD).
    pose proof (days_in_month_le_31 Y Mo) as H31.
    exists [d1; d2], [m1; m2], [y1; y2; y3; y4], D, Mo, Y.
    split; [reflexivity|].
    split; [apply day_text_two; try assumption; fold D; lia|].
    split; [apply month_text_two; try assumption; fold Mo; lia|].
    split; [apply year_text_four; assumption|].
    split; [apply py_int_two; assumption|].
    split; [apply py_int_two; assumption|].
    split; [apply py_int_four; assumption|].
    apply datetime_new_ok. auto.
Qed.

(** Formatting the parsed date gives the text back, for a year of four
    significant digits, whatever the C library does with shorter years. *)
Lemma strftime_strict (pad_year : bool) :
  1000 <= Y ->
  strftime_dmY pad_year (mkDatetime Y Mo D 0 0 0 0)
  = dd_mm_yyyy d1 d2 m1 m2 y1 y2 y3 y4.
Proof.
  intros HY. unfold strftime_dmY, year_text. cbn [year month day].
  unfold D, Mo, Y. rewrite !two_digits_value by assumption.
  rewrite four_digits_value by assumption.
  assert (Hne : (y1 =? 48)%N = false).
  { apply N.eqb_neq. intros E.
    pose proof (digit_value_bounds y2 Hy2). pose proof (digit_value_bounds y3 Hy3).
    pose proof (digit_value_bounds y4 Hy4).
    unfold Y, digit_value in *. lia. }
  unfold dd_mm_yyyy.
  cbn [strip_zeros]. rewrite Hne. destruct pad_year; reflexivity.
Qed.

End Strict.

(** C4 (as amended).  [Birthday.validate] either accepts a text or refuses
    it with [ValueError("Invalid date format. Use DD.MM.YYYY")].  It
    accepts exactly the texts day, dot, month, dot, year in which the day
    is matched by [3[0-1]|[1-2]\d|0[1-9]|[1-9]| [1-9]] (so one digit, or a
    space and a digit, will do), the month by [1[0-2]|0[1-9]|[1-9]], the
    year by four decimal digits, and the three numbers make a date that
    the [datetime] constructor accepts.  In particular a text written
    DD.MM.YYYY with ASCII digits is accepted if and only if it names a real
    calendar date with a year of at least 1, and for such a text with a
    year of at least 1000 formatting the parsed date with the same pattern
    gives the text back. *)
Theorem C4_validate_birthday :
  (forall s,
     (exists dt, Birthday_validate s = Ok dt)
     \/ Birthday_validate s = Raise birthday_error)
  /\ (forall s dt,
        Birthday_validate s = Ok dt <->
        exists d m y dd mm yy,
          s = d ++ DOT :: m ++ DOT :: y
          /\ group_text re_d d /\ group_text re_m m /\ group_text re_Y y
          /\ py_int d = Some dd /\ py_int m = Some mm /\ py_int y = Some yy
          /\ datetime_new yy mm dd 0 0 0 0 = Ok dt)
  /\ (forall d1 d2 m1 m2 y1 y2 y3 y4,
        forallb is_ascii_digit [d1; d2; m1; m2; y1; y2; y3; y4] = true ->
        let D := 10 * digit_value d1 + digit_value d2 in
        let Mo := 10 * digit_value m1 + digit_value m2 in
        let Y := 1000 * digit_value y1 + 100 * digit_value y2
                 + 10 * digit_value y3 + digit_value y4 in
        (forall dt,
           Birthday_validate (dd_mm_yyyy d1 d2 m1 m2 y1 y2 y3 y4) = Ok dt <->
           (1 <= Y <= 9999 /\ 1 <= Mo <= 12 /\ 1 <= D <= days_in_month Y Mo)
           /\ dt = mkDatetime Y Mo D 0 0 0 0)
        /\ (1000 <= Y ->
            forall pad_year,
              strftime_dmY pad_year (mkDatetime Y Mo D 0 0 0 0)
              = dd_mm_yyyy d1 d2 m1 m2 y1 y2 y3 y4)).
Proof.
  split; [|split].
  - intros s. destruct (Birthday_validate_cases s) as [(dt & _ & H) | [_ H]];
      eauto.
  - intros s dt. rewrite Birthday_validate_ok. apply strptime_dmY_spec.
  - intros d1 d2 m1 m2 y1 y2 y3 y4 Hdigits D Mo Y.
    cbn [forallb] in Hdigits. rewrite !andb_true_iff in Hdigits.
    destruct Hdigits as (Hd1 & Hd2 & Hm1 & Hm2 & Hy1 & Hy2 & Hy3 & Hy4 & _).
    split.
    + intros dt. rewrite Birthday_validate_ok.
      rewrite <- check_date_fields_ok. apply strptime_strict; assumption.
    + intros HY pad_year. apply strftime_strict; assumption.
Qed.

Lemma C4_validate_birthday_witness :
  Birthday_validate (u "25.06.1990") = Ok june25_1990
  /\ strftime_dmY false june25_1990 = u "25.06.1990".
Proof.
  assert (Hdigits : forallb is_ascii_digit [50; 53; 48; 54; 49; 57; 57; 48]%N
                    = true) by reflexivity.
  destruct (proj2 (proj2 C4_validate_birthday)
              50%N 53%N 48%N 54%N 49%N 57%N 57%N 48%N Hdigits) as [Hacc Hfmt].
  split.
  - apply Hacc. split; [|reflexivity]. vm_compute. intuition discriminate.
  - apply (Hfmt ltac:(vm_compute; discriminate) false).
Defined.

(** C4 as stated fails: a day and a month of one digit are accepted, and
    formatting the parsed date does not give that text back. *)
Lemma C4_counterexample :
  Birthday_validate (u "5.6.1990") = Ok (mkDatetime 1990 6 5 0 0 0 0)
  /\ (forall pad_year,
        strftime_dmY pad_year (mkDatetime 1990 6 5 0 0 0 0) = u "05.06.1990")
  /\ u "05.06.1990" <> u "5.6.1990".
Proof.
  split; [reflexivity|]. split; [intros []; reflexivity | discriminate].
Qed.

Example birthday_ok : Birthday_validate (u "25.06.1990") = Ok june25_1990.
Proof. reflexivity. Qed.

Example birthday_space_day :
  Birthday_validate (u " 5.06.1990") = Ok (mkDatetime 1990 6 5 0 0 0 0).
Proof. reflexivity. Qed.

Example birthday_feb30 : Birthday_validate (u "30.02.2000") = Raise birthday_error.
Proof. reflexivity. Qed.

Example birthday_feb29_1900 :
  Birthday_validate (u "29.02.1900") = Raise birthday_error.
Proof. reflexivity. Qed.

Example birthday_year_0 : Birthday_validate (u "01.01.0000") = Raise birthday_error.
Proof. reflexivity. Qed.

Example birthday_trailing :
  Birthday_validate (u "25.06.1990" ++ [NEWLINE]) = Raise birthday_error.
Proof. reflexivity. Qed.

Example birthday_dashes : Birthday_validate (u "25-06-1990") = Raise birthday_error.
Proof. reflexivity. Qed.

(** A year below 1000 comes back with or without its leading zero,
    depending on the platform. *)
Example birthday_year_999 :
  Birthday_validate (u "05.06.0999") = Ok (mkDatetime 999 6 5 0 0 0 0)
  /\ strftime_dmY true (mkDatetime 999 6 5 0 0 0 0) = u "05.06.0999"
  /\ strftime_dmY false (mkDatetime 999 6 5 0 0 0 0) = u "05.06.999".
Proof. repeat split. Qed.

(** * Further properties of the code *)

(** ** [Record.remove_phone] and [Record.find_phone] *)

Lemma remove_first_absent (phone : str) (ps : list Phone) :
  ~ In phone (map phone_value ps) -> remove_first phone ps = None.
Proof.
  induction ps as [|p ps IH]; simpl; intros Hno; [reflexivity|].
  replace (str_eqb (phone_value p) phone) with false
    by (symmetry; apply str_eqb_neq; tauto).
  rewrite IH by tauto. reflexivity.
Qed.

Lemma remove_first_at (phone : str) (before after : list Phone) (p : Phone) :
  phone_value p = phone -> ~ In phone (map phone_value before) ->
  remove_first phone (before ++ p :: after) = Some (before ++ after).
Proof.
  intros Hp. induction before as [|b before IH]; simpl; intros Hno.
  - rewrite Hp, str_eqb_refl. reflexivity.
  - replace (str_eqb (phone_value b) phone) with false
      by (symmetry; apply str_eqb_neq; tauto).
    rewrite IH by tauto. reflexivity.
Qed.

(** [remove_phone] takes out the first phone with the given value and
    nothing else; without such a phone it reports [False] and changes
    nothing. *)
Theorem Record_remove_phone_spec (r : Record_) (phone : str) :
  (~ In phone (map phone_value (phones r)) ->
   Record_remove_phone phone r = (Ok false, r))
  /\ (In phone (map phone_value (phones r)) ->
      exists before p after,
        phones r = before ++ p :: after /\ phone_value p = phone /\
        ~ In phone (map phone_value before) /\
        Record_remove_phone phone r = (Ok true, set_phones (before ++ after) r)).
Proof.
  split.
  - intros Hno. unfold Record_remove_phone, bind, get, ret.
    rewrite remove_first_absent by exact Hno. reflexivity.
  - intros Hin.
    destruct (first_match_split phone (phones r) Hin)
      as (before & p & after & Hps & Hp & Hno).
    exists before, p, after. repeat split; auto.
    unfold Record_remove_phone, bind, get, ret, modify.
    rewrite Hps, (remove_first_at phone before after p Hp Hno). reflexivity.
Qed.

Lemma Record_remove_phone_spec_witness :
  exists before p after,
    phones alice = before ++ p :: after /\ phone_value p = u "0123456789" /\
    ~ In (u "0123456789") (map phone_value before) /\
    Record_remove_phone (u "0123456789") alice
    = (Ok true, set_phones (before ++ after) alice).
Proof.
  apply (Record_remove_phone_spec alice (u "0123456789")).
  left. reflexivity.
Defined.

Lemma find_phone_none (phone : str) (ps : list Phone) :
  find (fun p => str_eqb (phone_value p) phone) ps = None <->
  ~ In phone (map phone_value ps).
Proof.
  induction ps as [|p ps IH]; simpl; [tauto|].
  destruct (str_eqb (phone_value p) phone) eqn:E.
  - apply str_eqb_eq in E. split; [discriminate | tauto].
  - apply str_eqb_neq in E. rewrite IH. tauto.
Qed.

Lemma find_phone_app (phone : str) (ps : list Phone) (q : Phone) :
  phone_value q = phone ->
  exists p, find (fun p => str_eqb (phone_value p) phone) (ps ++ [q]) = Some p
            /\ phone_value p = phone.
Proof.
  intros Hq. induction ps as [|p ps IH]; simpl.
  - rewrite Hq, str_eqb_refl. eauto.
  - destruct (str_eqb (phone_value p) phone) eqn:E; [|exact IH].
    apply str_eqb_eq in E. eauto.
Qed.

(** A phone that was added is found, and removing a phone that was added
    to a Record without it gives the Record back; [find_phone] answers
    [None] exactly for the values the Record does not hold. *)
Theorem Record_add_find_remove (r : Record_) (phone : str) :
  Phone_validate phone = Ok phone ->
  let r' := snd (Record_add_phone phone r) in
  fst (Record_add_phone phone r) = Ok tt
  /\ (exists p, Record_find_phone phone r' = Some p /\ phone_value p = phone)
  /\ (Record_find_phone phone r = None <->
      ~ In phone (map phone_value (phones r)))
  /\ (~ In phone (map phone_value (phones r)) ->
      Record_remove_phone phone r' = (Ok true, r)).
Proof.
  intros Hv r'. subst r'. rewrite (Record_add_phone_ok phone r Hv).
  cbn [fst snd]. split; [reflexivity|]. split; [|split].
  - unfold Record_find_phone. cbn. apply find_phone_app. reflexivity.
  - apply find_phone_none.
  - intros Hno. unfold Record_remove_phone, bind, get, ret, modify. cbn.
    rewrite (remove_first_at phone (phones r) [] (mkPhone phone) eq_refl Hno).
    rewrite app_nil_r. destruct r; reflexivity.
Qed.

Lemma Record_add_find_remove_witness :
  Record_remove_phone (u "1112223333")
    (snd (Record_add_phone (u "1112223333") alice))
  = (Ok true, alice).
Proof.
  assert (Hv : Phone_validate (u "1112223333") = Ok (u "1112223333"))
    by reflexivity.
  apply (Record_add_find_remove alice (u "1112223333") Hv).
  simpl. intros [H | []]. discriminate H.
Defined.

(** ** What the handlers answer *)

(** Unfold a handler and the calls in it completely. *)
Ltac run_all :=
  cbv beta iota delta
    [add_contact change_contact add_birthday show_phone show_all
     show_birthday birthdays input_error
     add_contact_body change_contact_body add_birthday_body
     show_phone_body show_all_body show_birthday_body birthdays_body
     remove_phone_of AddressBook_delete AddressBook_find
     AddressBook_add_record on_record on_local
     bind get ret raise lift modify].

(** A handler called with the wrong number of arguments answers with its
    usage line and leaves the book alone. *)
Theorem handlers_wrong_argument_count (args : list str) (book : AddressBook)
  (pad_year : bool) :
  (length args <> 2%nat ->
   add_contact args book
   = (u "Invalid command. Usage: add [name] [phone]", book))
  /\ (length args <> 3%nat ->
      change_contact args book
      = (u "Invalid command. Usage: change [name] [old_phone] [new_phone]",
         book))
  /\ (length args <> 1%nat ->
      show_phone args book = (u "Invalid command. Usage: phone [name]", book))
  /\ (length args <> 2%nat ->
      add_birthday args book
      = (u "Invalid command. Usage: add-birthday [name] [birthday]", book))
  /\ (length args <> 1%nat ->
      show_birthday pad_year args book
      = (u "Invalid command. Usage: show-birthday [name]", book)).
Proof.
  repeat split; intros Hlen;
    destruct args as [|a [|b [|c [|d args]]]];
    try (exfalso; apply Hlen; reflexivity); reflexivity.
Qed.

Lemma handlers_wrong_argument_count_witness :
  add_contact [u "alice"] book_alice
  = (u "Invalid command. Usage: add [name] [phone]", book_alice).
Proof.
  apply (handlers_wrong_argument_count [u "alice"] book_alice true).
  discriminate.
Defined.

Lemma Record_edit_phone_at (r : Record_) (old_phone new_phone : str)
  (before after : list Phone) (p : Phone) :
  phones r = before ++ p :: after -> phone_value p = old_phone ->
  ~ In old_phone (map phone_value before) ->
  Record_edit_phone old_phone new_phone r =
  match Phone_init new_phone with
  | Ok q => (Ok true, set_phones (before ++ mkPhone (phone_value q) :: after) r)
  | Raise e => (Raise e, r)
  end.
Proof.
  intros Hps Hp Hno. unfold Record_edit_phone, bind, get, lift.
  rewrite Hps, (edit_first_at old_phone new_phone before after p Hp Hno).
  destruct (Phone_init new_phone); reflexivity.
Qed.

(** [change]: the name is looked up first, then the old phone, and the new
    phone is validated last; only the last case changes the book, and only
    at the first phone with the old value. *)
Theorem change_contact_cases (book : AddressBook) (name old_phone new_phone : str) :
  (dict_get name (data book) = None ->
   change_contact [name; old_phone; new_phone] book
   = (u "Contact not found.", book))
  /\ (forall r,
        dict_get name (data book) = Some r ->
        ~ In old_phone (map phone_value (phones r)) ->
        change_contact [name; old_phone; new_phone] book
        = (u "Phone number not found.", book))
  /\ (forall r,
        dict_get name (data book) = Some r ->
        In old_phone (map phone_value (phones r)) ->
        Phone_validate new_phone <> Ok new_phone ->
        change_contact [name; old_phone; new_phone] book
        = (u "Phone number must be 10 digits", book))
  /\ (forall r,
        dict_get name (data book) = Some r ->
        In old_phone (map phone_value (phones r)) ->
        Phone_validate new_phone = Ok new_phone ->
        exists before p after,
          phones r = before ++ p :: after /\ phone_value p = old_phone /\
          ~ In old_phone (map phone_value before) /\
          change_contact [name; old_phone; new_phone] book
          = (u "Contact updated.",
             mkAddressBook
               (dict_set name
                  (set_phones (before ++ mkPhone new_phone :: after) r)
                  (data book)))).
Proof.
  destruct book as [d]. cbn [data]. repeat split.
  - intros G. run_all. cbn [data]. rewrite G. reflexivity.
  - intros r G Hno. run_all. cbn [data]. rewrite G.
    rewrite (Record_edit_phone_absent r old_phone new_phone Hno).
    cbv beta iota. cbn [data].
    rewrite (dict_set_same d name r G). reflexivity.
  - intros r G Hin Hbad. run_all. cbn [data]. rewrite G.
    destruct (first_match_split old_phone (phones r) Hin)
      as (before & p & after & Hps & Hp & Hno).
    rewrite (Record_edit_phone_at r old_phone new_phone before after p Hps Hp Hno).
    rewrite (Phone_init_raise new_phone Hbad).
    cbv beta iota. cbn [data].
    rewrite (dict_set_same d name r G). reflexivity.
  - intros r G Hin Hv.
    destruct (first_match_split old_phone (phones r) Hin)
      as (before & p & after & Hps & Hp & Hno).
    exists before, p, after. repeat split; auto.
    run_all. cbn [data]. rewrite G.
    rewrite (Record_edit_phone_at r old_phone new_phone before after p Hps Hp Hno).
    rewrite (Phone_init_ok new_phone Hv). reflexivity.
Qed.

Lemma change_contact_cases_witness :
  change_contact [u "bob"; u "0123456789"; u "abc"] book_alice
  = (u "Contact not found.", book_alice)
  /\ change_contact [u "alice"; u "0123456789"; u "abc"] book_alice
     = (u "Phone number must be 10 digits", book_alice).
Proof.
  destruct (change_contact_cases book_alice (u "bob") (u "0123456789") (u "abc"))
    as (H1 & _).
  destruct (change_contact_cases book_alice (u "alice") (u "0123456789") (u "abc"))
    as (_ & _ & H3 & _).
  split.
  - apply H1. reflexivity.
  - apply (H3 alice); [reflexivity | left; reflexivity | discriminate].
Defined.

(** [add-birthday]: the name is looked up before the date is validated; a
    date that is refused leaves the Record with the birthday it had; a date
    that is accepted replaces it and touches neither name nor phones. *)
Theorem add_birthday_cases (book : AddressBook) (name text : str) :
  (dict_get name (data book) = None ->
   add_birthday [name; text] book = (u "Contact not found.", book))
  /\ (forall r,
        dict_get name (data book) = Some r ->
        Birthday_validate text = Raise birthday_error ->
        add_birthday [name; text] book
        = (u "Invalid date format. Use DD.MM.YYYY", book))
  /\ (forall r dt,
        dict_get name (data book) = Some r ->
        Birthday_validate text = Ok dt ->
        add_birthday [name; text] book
        = (u "Birthday added.",
           mkAddressBook
             (dict_set name
                (set_birthday (Some (mkBirthday dt)) r)
                (data book)))).
Proof.
  destruct book as [d]. cbn [data]. repeat split.
  - intros G. run_all. cbn [data]. rewrite G. reflexivity.
  - intros r G Hbad. run_all. cbn [data]. rewrite G.
    assert (E : Record_add_birthday text r = (Raise birthday_error, r)).
    { unfold Record_add_birthday, bind, lift, Birthday_init. rewrite Hbad.
      reflexivity. }
    rewrite E. cbv beta iota. cbn [data].
    rewrite (dict_set_same d name r G). reflexivity.
  - intros r dt G Hv. run_all. cbn [data]. rewrite G.
    assert (E : Record_add_birthday text r
                = (Ok tt, set_birthday (Some (mkBirthday dt)) r)).
    { unfold Record_add_birthday, bind, lift, modify, Birthday_init.
      rewrite Hv. reflexivity. }
    rewrite E. reflexivity.
Qed.

Lemma add_birthday_cases_witness :
  add_birthday [u "alice"; u "31.02.2000"] book_alice
  = (u "Invalid date format. Use DD.MM.YYYY", book_alice).
Proof.
  destruct (add_birthday_cases book_alice (u "alice") (u "31.02.2000"))
    as (_ & H2 & _).
  apply (H2 alice); reflexivity.
Defined.

Ltac run_show :=
  cbv beta iota delta
    [show_phone_body show_all_body show_birthday_body birthdays_body
     AddressBook_find bind get ret raise lift].

Lemma show_phone_snd (args : list str) (book : AddressBook) :
  snd (show_phone args book) = book.
Proof.
  unfold show_phone. rewrite snd_input_error.
  destruct args as [|a [|b args]]; try reflexivity.
  run_show. destruct (dict_get a (data book)); reflexivity.
Qed.

Lemma show_all_snd (pad_year : bool) (book : AddressBook) :
  snd (show_all pad_year book) = book.
Proof.
  unfold show_all. rewrite snd_input_error.
  run_show. destruct (data book); reflexivity.
Qed.

Lemma show_birthday_snd (pad_year : bool) (args : list str) (book : AddressBook) :
  snd (show_birthday pad_year args book) = book.
Proof.
  unfold show_birthday. rewrite snd_input_error.
  destruct args as [|a [|b args]]; try reflexivity.
  run_show. destruct (dict_get a (data book)) as [r|]; [|reflexivity].
  destruct (birthday r); reflexivity.
Qed.

Lemma birthdays_snd (pad_year : bool) (today : datetime) (book : AddressBook) :
  snd (birthdays pad_year today book) = book.
Proof.
  unfold birthdays. rewrite snd_input_error. run_show.
  destruct (AddressBook_get_upcoming_birthdays today book) as [[|r l]|e];
    reflexivity.
Qed.

(** The handlers that only show data never change the book, whatever their
    arguments and whether they answer or fail. *)
Theorem show_handlers_read_only (args : list str) (book : AddressBook)
  (pad_year : bool) (today : datetime) :
  snd (show_phone args book) = book
  /\ snd (show_all pad_year book) = book
  /\ snd (show_birthday pad_year args book) = book
  /\ snd (birthdays pad_year today book) = book.
Proof.
  split; [apply show_phone_snd|]. split; [apply show_all_snd|].
  split; [apply show_birthday_snd | apply birthdays_snd].
Qed.

(** ** The entries a call leaves alone *)

Lemma on_record_frame {A} (k : str) (r : Record_) (m : M Record_ A)
  (book : AddressBook) :
  dict_get k (data book) = Some r ->
  dict_keys (data (snd (on_record k r m book))) = dict_keys (data book)
  /\ forall other, other <> k ->
       dict_get other (data (snd (on_record k r m book)))
       = dict_get other (data book).
Proof.
  intros G. unfold on_record. destruct (m r) as [res r']. cbn [snd data].
  split.
  - apply dict_keys_set_present with (v0 := r). exact G.
  - intros other Hne. apply dict_get_set_other. exact Hne.
Qed.

(** [change] and [add-birthday] never add or remove an entry, never
    reorder the book, and never touch the Record of a name other than
    their first argument. *)
Theorem change_and_add_birthday_frame (args : list str) (book : AddressBook) :
  (dict_keys (data (snd (change_contact args book))) = dict_keys (data book)
   /\ forall other, hd_error args <> Some other ->
        dict_get other (data (snd (change_contact args book)))
        = dict_get other (data book))
  /\ (dict_keys (data (snd (add_birthday args book))) = dict_keys (data book)
      /\ forall other, hd_error args <> Some other ->
           dict_get other (data (snd (add_birthday args book)))
           = dict_get other (data book)).
Proof.
  split.
  - unfold change_contact. rewrite snd_input_error.
    destruct args as [|name [|old_phone [|new_phone [|x args]]]];
      try (split; reflexivity).
    run_calls. destruct (dict_get name (data book)) as [r|] eqn:G;
      [|split; reflexivity].
    destruct (on_record_frame name r (Record_edit_phone old_phone new_phone)
                book G) as [Hk Ho].
    destruct (on_record name r (Record_edit_phone old_phone new_phone) book)
      as [[[|]|e] book']; cbn [snd] in *;
      (split; [exact Hk|]; intros other Hne; apply Ho; cbn in Hne; congruence).
  - unfold add_birthday. rewrite snd_input_error.
    destruct args as [|name [|text [|x args]]]; try (split; reflexivity).
    run_calls. destruct (dict_get name (data book)) as [r|] eqn:G;
      [|split; reflexivity].
    destruct (on_record_frame name r (Record_add_birthday text) book G)
      as [Hk Ho].
    destruct (on_record name r (Record_add_birthday text) book)
      as [[[]|e] book']; cbn [snd] in *;
      (split; [exact Hk|]; intros other Hne; apply Ho; cbn in Hne; congruence).
Qed.

Lemma change_and_add_birthday_frame_witness :
  dict_get (u "bob")
    (data (snd (change_contact [u "carol"; u "1112223333"; u "0000000000"]
                  book_carol_bob)))
  = dict_get (u "bob") (data book_carol_bob).
Proof.
  apply (change_and_add_birthday_frame
           [u "carol"; u "1112223333"; u "0000000000"] book_carol_bob).
  discriminate.
Defined.

(** ** [AddressBook.delete], [add_record] and [find] *)

Lemma dict_get_del_other {V} (d : dict V) (k other : str) :
  other <> k -> dict_get other (dict_del k d) = dict_get other d.
Proof.
  intros Hne. induction d as [|[k' v'] d IH]; simpl; [reflexivity|].
  destruct (str_eqb k' k) eqn:E; simpl.
  - apply str_eqb_eq in E. subst k'.
    replace (str_eqb k other) with false; [reflexivity|].
    symmetry. apply str_eqb_neq. congruence.
  - rewrite IH. reflexivity.
Qed.

Lemma dict_get_del_same {V} (d : dict V) (k : str) :
  dict_wf d -> dict_get k (dict_del k d) = None.
Proof.
  unfold dict_wf, dict_keys.
  induction d as [|[k' v'] d IH]; simpl; intros Hwf; [reflexivity|].
  inversion Hwf as [|? ? Hk Hd]; subst.
  destruct (str_eqb k' k) eqn:E; simpl.
  - apply str_eqb_eq in E. subst k'. apply dict_get_none. exact Hk.
  - rewrite E. apply IH. exact Hd.
Qed.

Lemma dict_del_length {V} (d : dict V) (k : str) (v : V) :
  dict_get k d = Some v -> S (length (dict_del k d)) = length d.
Proof.
  induction d as [|[k' v'] d IH]; simpl; [discriminate|].
  destruct (str_eqb k' k); simpl; [reflexivity|].
  intros G. rewrite IH by exact G. reflexivity.
Qed.

Lemma dict_del_absent {V} (d : dict V) (k : str) :
  dict_get k d = None -> dict_del k d = d.
Proof.
  induction d as [|[k' v'] d IH]; simpl; [reflexivity|].
  destruct (str_eqb k' k); [discriminate|].
  intros G. rewrite IH by exact G. reflexivity.
Qed.

(** [delete] of an absent name answers [False] and changes nothing; of a
    present name it answers [True], the name is gone, the book is one entry
    shorter, every other name keeps its Record, and a second [delete]
    answers [False]. *)
Theorem AddressBook_delete_spec (book : AddressBook) (name : str) :
  dict_wf (data book) ->
  (dict_get name (data book) = None ->
   AddressBook_delete name book = (Ok false, book))
  /\ (dict_get name (data book) <> None ->
      let book' := snd (AddressBook_delete name book) in
      fst (AddressBook_delete name book) = Ok true
      /\ dict_get name (data book') = None
      /\ S (length (data book')) = length (data book)
      /\ (forall other, other <> name ->
            dict_get other (data book') = dict_get other (data book))
      /\ AddressBook_delete name book' = (Ok false, book')).
Proof.
  intros Hwf. unfold AddressBook_delete, bind, get, ret, modify. split.
  - intros G. rewrite G. reflexivity.
  - intros G. destruct (dict_get name (data book)) as [r|] eqn:E;
      [clear G | congruence].
    cbn [fst snd data].
    rewrite (dict_get_del_same (data book) name Hwf).
    split; [reflexivity|]. split; [reflexivity|].
    split; [exact (dict_del_length (data book) name r E)|].
    split; [|reflexivity].
    intros other Hne. apply dict_get_del_other. exact Hne.
Qed.

Lemma AddressBook_delete_spec_witness :
  AddressBook_delete (u "carol") (snd (AddressBook_delete (u "carol") book_carol_bob))
  = (Ok false, snd (AddressBook_delete (u "carol") book_carol_bob)).
Proof.
  assert (Hwf : dict_wf (data book_carol_bob)).
  { repeat constructor; simpl; intuition discriminate. }
  apply (AddressBook_delete_spec book_carol_bob (u "carol") Hwf).
  discriminate.
Defined.

(** [find] after [add_record] returns the Record that was added; the
    Records of other names are as before; a new name goes to the end of the
    book and a name already there keeps its place. *)
Theorem add_record_then_find (book : AddressBook) (record : Record_) :
  let key := name_value (name record) in
  let book' := snd (AddressBook_add_record record book) in
  AddressBook_find key book' = (Ok (Some record), book')
  /\ (forall other, other <> key ->
        fst (AddressBook_find other book') = fst (AddressBook_find other book))
  /\ (dict_get key (data book) = None ->
      dict_keys (data book') = dict_keys (data book) ++ [key])
  /\ (dict_get key (data book) <> None ->
      dict_keys (data book') = dict_keys (data book)).
Proof.
  intros key book'. subst book'.
  unfold AddressBook_add_record, AddressBook_find, modify, bind, get, ret.
  cbn [fst snd data]. fold key. split; [|split; [|split]].
  - rewrite dict_get_set_same. reflexivity.
  - intros other Hne. rewrite dict_get_set_other by exact Hne. reflexivity.
  - intros G. rewrite (dict_set_absent _ _ _ G). unfold dict_keys.
    rewrite map_app. reflexivity.
  - intros G. destruct (dict_get key (data book)) as [r|] eqn:E; [|congruence].
    apply dict_keys_set_present with (v0 := r). exact E.
Qed.

(** ** What a reachable book stores *)

Lemma Phone_init_valid (text : str) (q : Phone) :
  Phone_init text = Ok q ->
  Phone_validate (phone_value q) = Ok (phone_value q).
Proof.
  unfold Phone_init. destruct (Phone_validate text) as [v|e] eqn:E;
    [|discriminate].
  intros [= <-]. cbn. pose proof (Phone_validate_value text v E) as ->.
  exact E.
Qed.

Lemma edit_first_valid (old_phone new_phone : str) (ps l : list Phone) :
  Forall (fun p => Phone_validate (phone_value p) = Ok (phone_value p)) ps ->
  edit_first old_phone new_phone ps = Ok (Some l) ->
  Forall (fun p => Phone_validate (phone_value p) = Ok (phone_value p)) l.
Proof.
  intros Hps. revert l. induction Hps as [|p ps Hp Hps IH]; intros l; simpl;
    [discriminate|].
  destruct (str_eqb (phone_value p) old_phone).
  - destruct (Phone_init new_phone) as [q|e] eqn:Q; [|discriminate].
    intros [= <-]. constructor; [|exact Hps].
    cbn. exact (Phone_init_valid new_phone q Q).
  - destruct (edit_first old_phone new_phone ps) as [[l'|]|e]; try discriminate.
    intros [= <-]. constructor; [exact Hp | apply IH; reflexivity].
Qed.

Lemma remove_first_valid (phone : str) (ps l : list Phone) :
  Forall (fun p => Phone_validate (phone_value p) = Ok (phone_value p)) ps ->
  remove_first phone ps = Some l ->
  Forall (fun p => Phone_validate (phone_value p) = Ok (phone_value p)) l.
Proof.
  intros Hps. revert l. induction Hps as [|p ps Hp Hps IH]; intros l; simpl;
    [discriminate|].
  destruct (str_eqb (phone_value p) phone); [intros [= <-]; exact Hps|].
  destruct (remove_first phone ps) as [l'|]; [|discriminate].
  intros [= <-]. constructor; [exact Hp | apply IH; reflexivity].
Qed.

Lemma Record_add_phone_keeps_ok (phone : str) (r : Record_) :
  record_ok r -> record_ok (snd (Record_add_phone phone r)).
Proof.
  intros [Hp Hb]. unfold Record_add_phone, bind, lift, modify.
  destruct (Phone_init phone) as [q|e] eqn:Q; cbn [snd]; [|split; assumption].
  split; [|exact Hb]. cbn. apply Forall_app. split; [exact Hp|].
  constructor; [exact (Phone_init_valid phone q Q) | constructor].
Qed.

Lemma Record_edit_phone_keeps_ok (old_phone new_phone : str) (r : Record_) :
  record_ok r -> record_ok (snd (Record_edit_phone old_phone new_phone r)).
Proof.
  intros [Hp Hb]. unfold Record_edit_phone, bind, get, lift, modify, ret.
  destruct (edit_first old_phone new_phone (phones r)) as [[l|]|e] eqn:E;
    cbn [snd]; try (split; assumption).
  split; [|exact Hb]. cbn. exact (edit_first_valid _ _ _ l Hp E).
Qed.

Lemma Record_remove_phone_keeps_ok (phone : str) (r : Record_) :
  record_ok r -> record_ok (snd (Record_remove_phone phone r)).
Proof.
  intros [Hp Hb]. unfold Record_remove_phone, bind, get, modify, ret.
  destruct (remove_first phone (phones r)) as [l|] eqn:E;
    cbn [snd]; [|split; assumption].
  split; [|exact Hb]. cbn. exact (remove_first_valid _ _ l Hp E).
Qed.

Lemma Record_add_birthday_keeps_ok (text : str) (r : Record_) :
  record_ok r -> record_ok (snd (Record_add_birthday text r)).
Proof.
  intros [Hp Hb]. unfold Record_add_birthday, bind, lift, modify, Birthday_init.
  destruct (Birthday_validate text) as [dt|e] eqn:E; cbn [snd];
    [|split; assumption].
  split; [exact Hp|]. cbn. intros b [= <-]. cbn.
  destruct (Birthday_validate_valid text dt E) as (Hv & Hm). split; assumption.
Qed.

Lemma book_ok_get (book : AddressBook) (k : str) (r : Record_) :
  book_ok book -> dict_get k (data book) = Some r -> record_ok r.
Proof.
  unfold book_ok, dict_values. intros Hok G. apply dict_get_in in G.
  rewrite Forall_forall in Hok. apply Hok.
  apply in_map_iff. exists (k, r). auto.
Qed.

Lemma book_ok_set (book : AddressBook) (k : str) (r : Record_) :
  book_ok book -> record_ok r ->
  book_ok (mkAddressBook (dict_set k r (data book))).
Proof.
  unfold book_ok, dict_values. cbn [data]. intros Hok Hr.
  rewrite Forall_forall in *. intros r0 Hin.
  apply in_map_iff in Hin as ([k0 r1] & <- & Hin).
  apply dict_set_in in Hin as [[_ ->] | Hin]; [exact Hr|].
  apply Hok. apply in_map_iff. exists (k0, r1). auto.
Qed.

Lemma book_ok_del (book : AddressBook) (k : str) :
  book_ok book -> book_ok (mkAddressBook (dict_del k (data book))).
Proof.
  unfold book_ok, dict_values. cbn [data]. intros Hok.
  rewrite Forall_forall in *. intros r0 Hin.
  apply in_map_iff in Hin as ([k0 r1] & <- & Hin).
  apply dict_del_in in Hin. apply Hok. apply in_map_iff. exists (k0, r1). auto.
Qed.

Lemma on_record_ok {A} (k : str) (r : Record_) (m : M Record_ A)
  (book : AddressBook) :
  book_ok book -> record_ok (snd (m r)) ->
  book_ok (snd (on_record k r m book)).
Proof.
  intros Hok Hr. unfold on_record. destruct (m r) as [res r'].
  cbn [snd] in *. apply book_ok_set; assumption.
Qed.

Lemma add_contact_ok (args : list str) (book : AddressBook) :
  book_ok book -> book_ok (snd (add_contact args book)).
Proof.
  intros Hok.
  destruct args as [|name [|phone [|x args]]]; try exact Hok.
  destruct (Phone_validate_cases phone) as [[Hv _] | [Hv _]].
  - rewrite (add_contact_valid book name phone Hv). cbn [snd].
    apply book_ok_set; [exact Hok|].
    destruct (dict_get name (data book)) as [r|] eqn:G.
    + pose proof (Record_add_phone_keeps_ok phone r (book_ok_get _ _ _ Hok G))
        as H.
      rewrite (Record_add_phone_ok phone r Hv) in H. exact H.
    + split; [|discriminate]. repeat constructor. exact Hv.
  - rewrite add_contact_invalid; [exact Hok | congruence].
Qed.

Lemma run_op_ok (o : op) (book : AddressBook) :
  book_ok book -> book_ok (run_op o book).
Proof.
  intros Hok. destruct o as [args | args | args | name | name phone]; simpl.
  - apply add_contact_ok. exact Hok.
  - unfold change_contact. rewrite snd_input_error.
    destruct args as [|name [|old_phone [|new_phone [|x args]]]]; try exact Hok.
    run_calls. destruct (dict_get name (data book)) as [r|] eqn:G; [|exact Hok].
    pose proof (on_record_ok name r (Record_edit_phone old_phone new_phone)
                  book Hok
                  (Record_edit_phone_keeps_ok _ _ r (book_ok_get _ _ _ Hok G)))
      as H.
    destruct (on_record name r (Record_edit_phone old_phone new_phone) book)
      as [[[|]|e] book']; exact H.
  - unfold add_birthday. rewrite snd_input_error.
    destruct args as [|name [|text [|x args]]]; try exact Hok.
    run_calls. destruct (dict_get name (data book)) as [r|] eqn:G; [|exact Hok].
    pose proof (on_record_ok name r (Record_add_birthday text) book Hok
                  (Record_add_birthday_keeps_ok _ r (book_ok_get _ _ _ Hok G)))
      as H.
    destruct (on_record name r (Record_add_birthday text) book)
      as [[[]|e] book']; exact H.
  - run_calls. destruct (dict_get name (data book)); [|exact Hok].
    apply book_ok_del. exact Hok.
  - run_calls. destruct (dict_get name (data book)) as [r|] eqn:G; [|exact Hok].
    apply on_record_ok; [exact Hok|].
    apply Record_remove_phone_keeps_ok. exact (book_ok_get _ _ _ Hok G).
Qed.

(** In every book reached by the operations, failed calls included, every
    stored phone is a text that [Phone.validate] accepts and every stored
    birthday is a real calendar date at midnight: nothing gets in
    unvalidated, not through [edit_phone] either. *)
Theorem reachable_stores_validated (book : AddressBook) :
  reachable book ->
  forall k r, dict_get k (data book) = Some r ->
    (forall p, In p (phones r) ->
       Phone_validate (phone_value p) = Ok (phone_value p))
    /\ (forall b, birthday r = Some b ->
          valid_datetime (birthday_value b) /\ at_midnight (birthday_value b)).
Proof.
  intros Hreach.
  assert (Hok : book_ok book).
  { induction Hreach as [|book o _ IH]; [constructor | apply run_op_ok, IH]. }
  intros k r G. destruct (book_ok_get book k r Hok G) as [Hp Hb].
  split; [|exact Hb]. rewrite Forall_forall in Hp. exact Hp.
Qed.

Lemma reachable_stores_validated_witness :
  Phone_validate (phone_value (mkPhone (u "1112223333")))
  = Ok (phone_value (mkPhone (u "1112223333")))
  /\ valid_datetime feb29_2000.
Proof.
  assert (Hreach : reachable book_carol_bob).
  { rewrite <- book_carol_bob_commands. repeat apply reach_step. apply reach_new. }
  destruct (reachable_stores_validated book_carol_bob Hreach (u "carol") carol
              eq_refl) as [Hphones Hbirth].
  split.
  - apply Hphones. left. reflexivity.
  - apply (Hbirth (mkBirthday feb29_2000)). reflexivity.
Defined.

Lemma valid_datetime_year (d : datetime) :
  valid_datetime d -> 1 <= year d <= 9999.
Proof.
  unfold valid_datetime. intros H. apply datetime_new_ok in H as (H & _).
  apply check_date_fields_ok in H. tauto.
Qed.

(** For a reachable book and a valid [today], the birthday query returns a
    list exactly when no stored birthday is 29 February or the year of
    [today] is a leap year; otherwise it raises. *)
Theorem reachable_query_returns_iff (book : AddressBook) (today : datetime) :
  reachable book -> valid_datetime today ->
  (exists result, AddressBook_get_upcoming_birthdays today book = Ok result)
  <->
  (forall record b, In record (dict_values (data book)) ->
     birthday record = Some b ->
     month (birthday_value b) = 2 -> day (birthday_value b) = 29 ->
     is_leap (year today) = true).
Proof.
  intros Hreach Htoday.
  apply upcoming_birthdays_returns_iff; [|apply valid_datetime_year, Htoday].
  assert (Hok : book_ok book).
  { induction Hreach as [|book' o _ IH]; [constructor | apply run_op_ok, IH]. }
  intros record b Hin Hb. unfold book_ok in Hok. rewrite Forall_forall in Hok.
  destruct (Hok record Hin) as [_ Hbirth]. apply (Hbirth b Hb).
Qed.

Lemma reachable_query_returns_iff_witness :
  exists result,
    AddressBook_get_upcoming_birthdays (mkDatetime 2024 3 1 9 0 0 0)
      book_carol_bob = Ok result.
Proof.
  assert (Hreach : reachable book_carol_bob).
  { rewrite <- book_carol_bob_commands. repeat apply reach_step. apply reach_new. }
  assert (Htoday : valid_datetime (mkDatetime 2024 3 1 9 0 0 0)) by reflexivity.
  apply (reachable_query_returns_iff book_carol_bob _ Hreach Htoday).
  intros record b _ _ _ _. reflexivity.
Defined.

(** ** The window, in calendar days *)

Lemma reachable_book_ok (book : AddressBook) : reachable book -> book_ok book.
Proof.
  induction 1 as [|book o _ IH]; [constructor | apply run_op_ok, IH].
Qed.

Lemma valid_datetime_fields (d : datetime) :
  valid_datetime d ->
  check_date_fields (year d) (month d) (day d) = Ok tt
  /\ check_time_fields (hour d) (minute d) (second d) (microsecond d) = Ok tt.
Proof.
  unfold valid_datetime. intros H. apply datetime_new_ok in H. tauto.
Qed.

(** The whole days the loop counts, in calendar days: the difference of
    the two dates when [today] is exactly midnight, one less otherwise. *)
Lemma days_until_calendar (b today c : datetime) :
  at_midnight b -> valid_datetime today ->
  datetime_replace_year b (year today) = Ok c ->
  exists delta,
    days_until b today = Ok delta
    /\ ((at_midnight today /\ delta = date_diff c today)
        \/ (~ at_midnight today /\ delta = date_diff c today - 1)).
Proof.
  intros (Bh & Bmi & Bs & Bus) Htoday R.
  apply valid_datetime_fields in Htoday as [_ Ht].
  assert (Hc : at_midnight c).
  { unfold datetime_replace_year in R. apply datetime_new_ok in R as (_ & _ & ->).
    unfold at_midnight. cbn. auto. }
  destruct Hc as (Ch & Cmi & Cs & Cus).
  destruct today as [y m d h mi s us]. cbn [year hour minute second microsecond] in *.
  destruct (days_until_same_year b y m d h mi s us c R Ch Cmi Cs Cus Ht)
    as (delta & Hd & Hbounds & Heq).
  exists delta. split; [exact Hd|].
  unfold date_diff, at_midnight.
  change (toordinal (mkDatetime y m d h mi s us)) with (ymd2ord y m d).
  cbn [hour minute second microsecond].
  destruct (Z.eq_dec delta (toordinal c - ymd2ord y m d)) as [E | E].
  - left. split; [apply Heq, E | exact E].
  - right. split; [intros Hm; apply E, Heq, Hm | lia].
Qed.

Lemma in_window_delta (today : datetime) (record : Record_) (b : Birthday)
  (delta : Z) :
  birthday record = Some b -> days_until (birthday_value b) today = Ok delta ->
  in_window today record = true <-> 0 <= delta <= 7.
Proof.
  intros Hb Hd. unfold in_window. rewrite Hb, Hd.
  rewrite andb_true_iff, !Z.leb_le. reflexivity.
Qed.

(** The window of the query counted in calendar days.  When the query
    returns, a Record of a reachable book with a birthday is in the result
    if and only if the days from the date of [today] to the birthday of
    this year are 0 to 7 and the query runs exactly at midnight, or are 1
    to 8 and it runs at any other time of day. *)
Theorem window_in_calendar_days (book : AddressBook) (today : datetime)
  (result : list Record_) (record : Record_) (b : Birthday) :
  reachable book -> valid_datetime today ->
  AddressBook_get_upcoming_birthdays today book = Ok result ->
  In record (dict_values (data book)) -> birthday record = Some b ->
  let this_year :=
    mkDatetime (year today) (month (birthday_value b))
               (day (birthday_value b)) 0 0 0 0 in
  In record result <->
  (at_midnight today /\ 0 <= date_diff this_year today <= 7)
  \/ (~ at_midnight today /\ 1 <= date_diff this_year today <= 8).
Proof.
  intros Hreach Htoday Hq Hin Hb this_year.
  pose proof (reachable_book_ok book Hreach) as Hok.
  unfold book_ok in Hok. rewrite Forall_forall in Hok.
  destruct (Hok record Hin) as [_ Hbirth].
  destruct (Hbirth b Hb) as [Hvalid Hmid].
  apply upcoming_loop_ok in Hq as [-> Hall]. cbn [app].
  rewrite filter_In.
  destruct (Hall record b Hin Hb) as [delta0 Hdelta0].
  unfold days_until in Hdelta0.
  destruct (datetime_replace_year (birthday_value b) (year today))
    as [c|e] eqn:R; [|discriminate].
  clear delta0 Hdelta0.
  destruct (days_until_calendar (birthday_value b) today c Hmid Htoday R)
    as (delta & Hdelta & Hcases).
  rewrite (in_window_delta today record b delta Hb Hdelta).
  assert (HD : date_diff c today = date_diff this_year today).
  { unfold datetime_replace_year in R.
    apply datetime_new_ok in R as (_ & _ & ->). reflexivity. }
  rewrite HD in Hcases.
  destruct Hcases as [[Hnight ->] | [Hday ->]].
  - split.
    + intros [_ H]. left. split; [exact Hnight | lia].
    + intros [[_ H] | [Hn _]]; [split; [exact Hin | lia] | contradiction].
  - split.
    + intros [_ H]. right. split; [exact Hday | lia].
    + intros [[Hn _] | [_ H]]; [contradiction | split; [exact Hin | lia]].
Qed.

Lemma window_in_calendar_days_witness :
  AddressBook_get_upcoming_birthdays (mkDatetime 2024 2 24 8 0 0 0)
    book_carol_bob = Ok [carol; bob]
  /\ (In bob [carol; bob] <->
      (at_midnight (mkDatetime 2024 2 24 8 0 0 0)
       /\ 0 <= date_diff (mkDatetime 2024 3 3 0 0 0 0)
                         (mkDatetime 2024 2 24 8 0 0 0) <= 7)
      \/ (~ at_midnight (mkDatetime 2024 2 24 8 0 0 0)
          /\ 1 <= date_diff (mkDatetime 2024 3 3 0 0 0 0)
                            (mkDatetime 2024 2 24 8 0 0 0) <= 8)).
Proof.
  assert (Hreach : reachable book_carol_bob).
  { rewrite <- book_carol_bob_commands. repeat apply reach_step. apply reach_new. }
  split; [reflexivity|].
  apply (window_in_calendar_days book_carol_bob (mkDatetime 2024 2 24 8 0 0 0)
           [carol; bob] bob (mkBirthday march3_1990) Hreach);
    try reflexivity.
  right. left. reflexivity.
Defined.

(** A contact whose birthday is today is reported only when the query runs
    exactly at midnight. *)
Theorem birthday_today_needs_midnight (book : AddressBook) (today : datetime)
  (result : list Record_) (record : Record_) (b : Birthday) :
  reachable book -> valid_datetime today ->
  AddressBook_get_upcoming_birthdays today book = Ok result ->
  In record (dict_values (data book)) -> birthday record = Some b ->
  month (birthday_value b) = month today ->
  day (birthday_value b) = day today ->
  (In record result <-> at_midnight today).
Proof.
  intros Hreach Htoday Hq Hin Hb Hm Hd.
  pose proof (reachable_book_ok book Hreach) as Hok.
  unfold book_ok in Hok. rewrite Forall_forall in Hok.
  destruct (Hok record Hin) as [_ Hbirth].
  destruct (Hbirth b Hb) as [Hvalid Hmid].
  apply upcoming_loop_ok in Hq as [-> Hall]. cbn [app].
  rewrite filter_In.
  destruct (Hall record b Hin Hb) as [delta Hdelta].
  unfold days_until in Hdelta.
  destruct (datetime_replace_year (birthday_value b) (year today))
    as [c|e] eqn:R; [|discriminate].
  clear delta Hdelta.
  destruct (days_until_calendar (birthday_value b) today c Hmid Htoday R)
    as (delta & Hdelta & Hcases).
  rewrite (in_window_delta today record b delta Hb Hdelta).
  assert (HD : date_diff c today = 0).
  { unfold datetime_replace_year in R.
    apply datetime_new_ok in R as (_ & _ & ->).
    unfold date_diff, toordinal. cbn [year month day]. rewrite Hm, Hd. lia. }
  rewrite HD in Hcases. split.
  - intros [_ H]. destruct Hcases as [[Hnight _] | [_ ->]]; [exact Hnight | lia].
  - intros Hnight. split; [exact Hin|].
    destruct Hcases as [[_ ->] | [Hn _]]; [lia | contradiction].
Qed.

Lemma birthday_today_needs_midnight_witness :
  In bob [] <-> at_midnight (mkDatetime 2024 3 3 9 0 0 0).
Proof.
  assert (Hreach : reachable book_carol_bob).
  { rewrite <- book_carol_bob_commands. repeat apply reach_step. apply reach_new. }
  apply (birthday_today_needs_midnight book_carol_bob
           (mkDatetime 2024 3 3 9 0 0 0) [] bob (mkBirthday march3_1990)
           Hreach);
    try reflexivity.
  right. left. reflexivity.
Defined.

(** Within a year, a later date has a greater ordinal. *)
Lemma ymd2ord_increasing (y m1 d1 m2 d2 : Z) :
  1 <= m1 <= 12 -> 1 <= m2 <= 12 ->
  1 <= d1 <= days_in_month y m1 -> 1 <= d2 ->
  m1 < m2 \/ (m1 = m2 /\ d1 < d2) ->
  ymd2ord y m1 d1 < ymd2ord y m2 d2.
Proof.
  intros H1 H2 Hd1 Hd2 Hlt. unfold ymd2ord.
  assert (E1 : m1 = 1 \/ m1 = 2 \/ m1 = 3 \/ m1 = 4 \/ m1 = 5 \/ m1 = 6 \/
               m1 = 7 \/ m1 = 8 \/ m1 = 9 \/ m1 = 10 \/ m1 = 11 \/ m1 = 12)
    by lia.
  assert (E2 : m2 = 1 \/ m2 = 2 \/ m2 = 3 \/ m2 = 4 \/ m2 = 5 \/ m2 = 6 \/
               m2 = 7 \/ m2 = 8 \/ m2 = 9 \/ m2 = 10 \/ m2 = 11 \/ m2 = 12)
    by lia.
  revert Hd1. generalize (days_before_year y). intros dby.
  unfold days_before_month, days_in_month.
  destruct (is_leap y);
    repeat (destruct E1 as [E1 | E1]); subst m1;
    repeat (destruct E2 as [E2 | E2]); subst m2;
    try lia;
    vm_compute Z.to_nat;
    cbv [seq map fold_right Z.of_nat Pos.of_succ_nat Pos.succ Z.eqb Pos.eqb orb];
    lia.
Qed.

(** No wraparound: a birthday whose day of this year lies before the date
    of [today] is never reported, however soon it comes round again. *)
Theorem passed_birthday_excluded (book : AddressBook) (today : datetime)
  (result : list Record_) (record : Record_) (b : Birthday) :
  reachable book -> valid_datetime today ->
  AddressBook_get_upcoming_birthdays today book = Ok result ->
  birthday record = Some b ->
  In record (dict_values (data book)) ->
  month (birthday_value b) < month today
  \/ (month (birthday_value b) = month today
      /\ day (birthday_value b) < day today) ->
  ~ In record result.
Proof.
  intros Hreach Htoday Hq Hb Hin Hpast.
  pose proof (reachable_book_ok book Hreach) as Hok.
  unfold book_ok in Hok. rewrite Forall_forall in Hok.
  destruct (Hok record Hin) as [_ Hbirth].
  destruct (Hbirth b Hb) as [Hvalid Hmid].
  apply upcoming_loop_ok in Hq as [-> Hall]. cbn [app].
  rewrite filter_In. intros [_ Hw].
  destruct (Hall record b Hin Hb) as [delta Hdelta].
  unfold days_until in Hdelta.
  destruct (datetime_replace_year (birthday_value b) (year today))
    as [c|e] eqn:R; [|discriminate].
  clear delta Hdelta.
  destruct (days_until_calendar (birthday_value b) today c Hmid Htoday R)
    as (delta & Hdelta & Hcases).
  apply (in_window_delta today record b delta Hb Hdelta) in Hw.
  assert (HD : date_diff c today < 0).
  { unfold datetime_replace_year in R.
    apply datetime_new_ok in R as (Hc & _ & ->).
    apply check_date_fields_ok in Hc as (_ & Hcm & Hcd).
    apply valid_datetime_fields in Htoday as [Ht _].
    apply check_date_fields_ok in Ht as (_ & Htm & Htd).
    unfold date_diff, toordinal. cbn [year month day].
    pose proof (ymd2ord_increasing (year today)
                  (month (birthday_value b)) (day (birthday_value b))
                  (month today) (day today) Hcm Htm Hcd (proj1 Htd) Hpast).
    lia. }
  destruct Hcases as [[_ ->] | [_ ->]]; lia.
Qed.

Lemma passed_birthday_excluded_witness :
  AddressBook_get_upcoming_birthdays (mkDatetime 2024 12 28 0 0 0 0)
    book_carol_bob = Ok []
  /\ (In bob [] <-> False).
Proof.
  assert (Hreach : reachable book_carol_bob).
  { rewrite <- book_carol_bob_commands. repeat apply reach_step. apply reach_new. }
  split; [reflexivity|]. split; [|intros []].
  apply (passed_birthday_excluded book_carol_bob
           (mkDatetime 2024 12 28 0 0 0 0) [] bob (mkBirthday march3_1990)
           Hreach);
    try reflexivity.
  - right. left. reflexivity.
  - left. reflexivity.
Defined.

(** ** Commands that follow one another *)

(** After [add name phone] with a valid phone, [phone name] shows the
    phones the name had before, then the new one. *)
Theorem add_then_show_phone (book : AddressBook) (name phone : str) :
  Phone_validate phone = Ok phone ->
  let before :=
    match dict_get name (data book) with Some r => phones r | None => [] end in
  let book' := snd (add_contact [name; phone] book) in
  show_phone [name] book'
  = (join (u ", ") (map phone_value before ++ [phone]), book').
Proof.
  intros Hv before book'. subst before book'.
  rewrite (add_contact_valid book name phone Hv). cbn [snd].
  unfold show_phone, input_error. run_show. cbn [data].
  rewrite dict_get_set_same.
  destruct (dict_get name (data book)) as [r|]; cbn [phones set_phones];
    [rewrite map_app|]; reflexivity.
Qed.

Lemma add_then_show_phone_witness :
  show_phone [u "alice"] (snd (add_contact [u "alice"; u "0123456798"] book_alice))
  = (u "0123456789, 0123456798",
     snd (add_contact [u "alice"; u "0123456798"] book_alice)).
Proof.
  assert (Hv : Phone_validate (u "0123456798") = Ok (u "0123456798"))
    by reflexivity.
  exact (add_then_show_phone book_alice (u "alice") (u "0123456798") Hv).
Defined.

(** After [add-birthday name DD.MM.YYYY] with a real date of a year from
    1000 on, [show-birthday name] prints the text that was entered. *)
Theorem add_then_show_birthday (book : AddressBook) (name : str)
  (d1 d2 m1 m2 y1 y2 y3 y4 : char) (pad_year : bool) :
  dict_get name (data book) <> None ->
  forallb is_ascii_digit [d1; d2; m1; m2; y1; y2; y3; y4] = true ->
  let D := 10 * digit_value d1 + digit_value d2 in
  let Mo := 10 * digit_value m1 + digit_value m2 in
  let Y := 1000 * digit_value y1 + 100 * digit_value y2
           + 10 * digit_value y3 + digit_value y4 in
  1000 <= Y -> 1 <= Mo <= 12 -> 1 <= D <= days_in_month Y Mo ->
  let text := dd_mm_yyyy d1 d2 m1 m2 y1 y2 y3 y4 in
  fst (add_birthday [name; text] book) = u "Birthday added."
  /\ fst (show_birthday pad_year [name] (snd (add_birthday [name; text] book)))
     = text.
Proof.
  intros Hname Hdigits D Mo Y HY HM HD text.
  cbn [forallb] in Hdigits. rewrite !andb_true_iff in Hdigits.
  destruct Hdigits as (Hd1 & Hd2 & Hm1 & Hm2 & Hy1 & Hy2 & Hy3 & Hy4 & _).
  assert (Hv : Birthday_validate text = Ok (mkDatetime Y Mo D 0 0 0 0)).
  { apply Birthday_validate_ok. apply strptime_strict; try assumption.
    split; [|reflexivity]. apply check_date_fields_ok.
    fold D Mo Y. pose proof (digit_value_bounds y1 Hy1).
    pose proof (digit_value_bounds y2 Hy2). pose proof (digit_value_bounds y3 Hy3).
    pose proof (digit_value_bounds y4 Hy4). unfold Y in *. lia. }
  destruct (dict_get name (data book)) as [r|] eqn:G; [clear Hname | congruence].
  assert (E : add_birthday [name; text] book
              = (u "Birthday added.",
                 mkAddressBook
                   (dict_set name
                      (set_birthday (Some (mkBirthday (mkDatetime Y Mo D 0 0 0 0))) r)
                      (data book)))).
  { run_all. rewrite G.
    assert (E : Record_add_birthday text r
                = (Ok tt, set_birthday
                            (Some (mkBirthday (mkDatetime Y Mo D 0 0 0 0))) r)).
    { unfold Record_add_birthday, bind, lift, modify, Birthday_init.
      rewrite Hv. reflexivity. }
    rewrite E. reflexivity. }
  rewrite E. cbn [fst snd]. split; [reflexivity|].
  unfold show_birthday, input_error. run_show. cbn [data].
  rewrite dict_get_set_same. cbn [birthday set_birthday birthday_value fst].
  apply strftime_strict; assumption.
Qed.

Lemma add_then_show_birthday_witness :
  fst (show_birthday false [u "bob"]
         (snd (add_birthday [u "bob"; u "24.12.1985"] book_carol_bob)))
  = u "24.12.1985".
Proof.
  apply (add_then_show_birthday book_carol_bob (u "bob")
           50%N 52%N 49%N 50%N 49%N 57%N 56%N 53%N false);
    try reflexivity; try discriminate; vm_compute; intuition discriminate.
Defined.

(** ** Formatting a stored birthday and reading it again *)

Lemma digit_char_digit (n : Z) :
  0 <= n <= 9 ->
  is_ascii_digit (digit_char n) = true /\ digit_value (digit_char n) = n.
Proof.
  intros Hn. unfold digit_char, digit_value. split; [|lia].
  apply is_ascii_digit_bounds. lia.
Qed.

Lemma four_digits_no_zero (y : Z) :
  1000 <= y <= 9999 -> strip_zeros (four_digits y) = four_digits y.
Proof.
  intros Hy. unfold four_digits. cbn [strip_zeros].
  replace (digit_char (y / 1000) =? 48)%N with false; [reflexivity|].
  symmetry. apply N.eqb_neq. unfold digit_char.
  assert (1 <= y / 1000) by (apply Z.div_le_lower_bound; lia). lia.
Qed.

(** The text that [strftime] makes of a stored birthday is accepted by
    [Birthday.validate] and parsed back to the same date, as long as the
    year is written with four digits: on every platform for a year from
    1000 on, and for every year where the C library pads it. *)
Theorem format_then_parse (pad_year : bool) (dt : datetime) :
  valid_datetime dt -> at_midnight dt ->
  pad_year = true \/ 1000 <= year dt ->
  Birthday_validate (strftime_dmY pad_year dt) = Ok dt.
Proof.
  intros Hvalid (Hh & Hmi & Hs & Hus) Hpad.
  apply valid_datetime_fields in Hvalid as [Hdate _].
  destruct dt as [y m d h mi s us].
  cbn [year month day hour minute second microsecond] in *. subst h mi s us.
  pose proof Hdate as Hr. apply check_date_fields_ok in Hr as (Hy & Hm & Hd).
  pose proof (days_in_month_le_31 y m) as H31.
  assert (Htext : year_text pad_year y = four_digits y).
  { unfold year_text. destruct Hpad as [-> | Hge]; [reflexivity|].
    destruct pad_year; [reflexivity|]. apply four_digits_no_zero. lia. }
  unfold strftime_dmY. cbn [year month day]. rewrite Htext.
  assert (Hdiv : forall n, 0 <= n <= 99 -> 0 <= n / 10 <= 9 /\ 0 <= n mod 10 <= 9
                                           /\ 10 * (n / 10) + n mod 10 = n).
  { intros n Hn. pose proof (Z.div_mod n 10 ltac:(lia)).
    pose proof (Z.mod_pos_bound n 10 ltac:(lia)). lia. }
  destruct (Hdiv d ltac:(lia)) as (Hd1 & Hd2 & Hd3).
  destruct (Hdiv m ltac:(lia)) as (Hm1 & Hm2 & Hm3).
  assert (Hy4 : 0 <= y / 1000 <= 9 /\ 0 <= (y / 100) mod 10 <= 9
                /\ 0 <= (y / 10) mod 10 <= 9 /\ 0 <= y mod 10 <= 9
                /\ 1000 * (y / 1000) + 100 * ((y / 100) mod 10)
                   + 10 * ((y / 10) mod 10) + y mod 10 = y).
  { pose proof (Z.div_mod y 10 ltac:(lia)).
    pose proof (Z.mod_pos_bound y 10 ltac:(lia)).
    pose proof (Z.div_mod (y / 10) 10 ltac:(lia)).
    pose proof (Z.mod_pos_bound (y / 10) 10 ltac:(lia)).
    pose proof (Z.div_mod (y / 100) 10 ltac:(lia)).
    pose proof (Z.mod_pos_bound (y / 100) 10 ltac:(lia)).
    assert (E1 : y / 10 / 10 = y / 100) by (rewrite Z.div_div by lia; reflexivity).
    assert (E2 : y / 100 / 10 = y / 1000) by (rewrite Z.div_div by lia; reflexivity).
    rewrite E1 in *. rewrite E2 in *. lia. }
  destruct Hy4 as (Ha & Hb & Hc & He & Hsum).
  unfold two_digits, four_digits.
  apply Birthday_validate_ok.
  apply (strptime_strict
           (digit_char (d / 10)) (digit_char (d mod 10))
           (digit_char (m / 10)) (digit_char (m mod 10))
           (digit_char (y / 1000)) (digit_char ((y / 100) mod 10))
           (digit_char ((y / 10) mod 10)) (digit_char (y mod 10)));
    try (apply digit_char_digit; assumption).
  rewrite !(proj2 (digit_char_digit _ Hd1)), !(proj2 (digit_char_digit _ Hd2)),
    !(proj2 (digit_char_digit _ Hm1)), !(proj2 (digit_char_digit _ Hm2)),
    !(proj2 (digit_char_digit _ Ha)), !(proj2 (digit_char_digit _ Hb)),
    !(proj2 (digit_char_digit _ Hc)), !(proj2 (digit_char_digit _ He)).
  rewrite Hd3, Hm3, Hsum. split; [exact Hdate | reflexivity].
Qed.

Lemma format_then_parse_witness :
  Birthday_validate (strftime_dmY false feb29_2000) = Ok feb29_2000.
Proof.
  apply format_then_parse.
  - reflexivity.
  - unfold at_midnight. cbn. auto.
  - right. cbn. lia.
Defined.

(** ** [parse_input] *)

Lemma no_space_app (a b : str) : no_space (a ++ b) <-> no_space a /\ no_space b.
Proof. unfold no_space. rewrite forallb_app, andb_true_iff. reflexivity. Qed.

(** Every piece [split] returns is a word. *)
Lemma split_from_words (s tok : str) :
  no_space tok -> Forall is_word (split_from s tok).
Proof.
  revert tok. induction s as [|c s IH]; intros tok Htok; cbn [split_from].
  - destruct tok as [|x tok]; constructor; [|constructor].
    split; [discriminate | exact Htok].
  - destruct (is_space c) eqn:C.
    + destruct tok as [|x tok]; [apply IH; reflexivity|].
      constructor; [split; [discriminate | exact Htok] | apply IH; reflexivity].
    + apply IH. apply no_space_app. split; [exact Htok|].
      unfold no_space. cbn [forallb]. rewrite C. reflexivity.
Qed.

(** [split] returns nothing exactly for a line of whitespace only. *)
Lemma split_from_nil (s tok : str) :
  split_from s tok = [] <-> tok = [] /\ forallb is_space s = true.
Proof.
  revert tok. induction s as [|c s IH]; intros tok; cbn [split_from forallb].
  - destruct tok; split; try discriminate; auto. intros [H _]. discriminate H.
  - destruct (is_space c) eqn:C; cbn [andb].
    + destruct tok as [|x tok]; [apply IH|].
      split; [discriminate | intros [H _]; discriminate H].
    + rewrite IH. split; [|intros [_ H]; discriminate H].
      intros [H _]. destruct tok; discriminate H.
Qed.

Lemma split_from_word (w rest tok : str) :
  no_space w -> split_from (w ++ rest) tok = split_from rest (tok ++ w).
Proof.
  revert tok. induction w as [|c w IH]; intros tok Hw; cbn [app split_from].
  - rewrite app_nil_r. reflexivity.
  - unfold no_space in Hw. cbn [forallb] in Hw.
    apply andb_true_iff in Hw as [Hc Hw].
    apply negb_true_iff in Hc. rewrite Hc. rewrite IH by exact Hw.
    rewrite <- app_assoc. reflexivity.
Qed.

(** Words joined by single spaces are the words [split] gives back. *)
Lemma split_join_words (words : list str) :
  Forall is_word words -> str_split (join [SPACE] words) = words.
Proof.
  unfold str_split. induction 1 as [|w words [Hne Hw] Hwords IH];
    [reflexivity|].
  destruct words as [|w' words].
  - cbn [join]. rewrite <- (app_nil_r w) at 1.
    rewrite (split_from_word w [] [] Hw). cbn.
    destruct w; [contradiction | reflexivity].
  - change (join [SPACE] (w :: w' :: words))
      with (w ++ SPACE :: join [SPACE] (w' :: words)).
    rewrite (split_from_word w _ [] Hw). cbn [app split_from].
    change (is_space SPACE) with true. cbv iota.
    destruct w; [contradiction|]. rewrite IH. reflexivity.
Qed.

Lemma str_lstrip_word (w : str) : no_space w -> str_lstrip w = w.
Proof.
  destruct w as [|c w]; [reflexivity|]. unfold no_space. cbn [forallb str_lstrip].
  intros H. apply andb_true_iff in H as [Hc _].
  apply negb_true_iff in Hc. rewrite Hc. reflexivity.
Qed.

Lemma str_strip_word (w : str) : no_space w -> str_strip w = w.
Proof.
  intros Hw. unfold str_strip. rewrite (str_lstrip_word w Hw).
  rewrite str_lstrip_word; [apply rev_involutive|].
  unfold no_space in *. rewrite forallb_forall in *.
  intros c Hc. apply Hw. apply in_rev. exact Hc.
Qed.

Lemma parse_input_words (lower : str -> str) (user_input cmd : str)
  (args : list str) :
  parse_input lower user_input = Ok (cmd, args) ->
  Forall is_word args
  /\ exists w, is_word w /\ cmd = lower w /\ str_split user_input = w :: args.
Proof.
  unfold parse_input.
  pose proof (split_from_words user_input [] eq_refl) as Hwords.
  fold (str_split user_input) in Hwords.
  destruct (str_split user_input) as [|w ws]; [discriminate|].
  intros [= <- <-]. inversion Hwords as [|? ? Hw Hws]; subst.
  split; [exact Hws|]. exists w. repeat split; try apply Hw.
  rewrite str_strip_word by apply Hw. reflexivity.
Qed.

Lemma parse_input_blank (lower : str -> str) (user_input : str) :
  parse_input lower user_input = Raise unpack_error <->
  forallb is_space user_input = true.
Proof.
  unfold parse_input.
  destruct (str_split user_input) as [|w ws] eqn:E.
  - apply split_from_nil in E as [_ E]. tauto.
  - split; [discriminate|]. intros H.
    assert (E' : str_split user_input = [])
      by (apply split_from_nil; auto).
    congruence.
Qed.

(** [parse_input] raises exactly on a line with no word; otherwise the
    command is the lowercase of the first word ([strip] has nothing left to
    remove) and every argument is a word: not empty and free of
    whitespace, newlines included.  A command and arguments joined by
    single spaces are parsed back. *)
Theorem parse_input_spec (lower : str -> str) (user_input : str) :
  (parse_input lower user_input = Raise unpack_error <->
   forallb is_space user_input = true)
  /\ (forall cmd args,
        parse_input lower user_input = Ok (cmd, args) ->
        Forall is_word args
        /\ exists w, is_word w /\ cmd = lower w
                     /\ str_split user_input = w :: args)
  /\ (forall w args,
        Forall is_word (w :: args) ->
        parse_input lower (join [SPACE] (w :: args)) = Ok (lower w, args)).
Proof.
  split; [apply parse_input_blank|]. split; [apply parse_input_words|].
  intros w args Hwords. unfold parse_input.
  rewrite (split_join_words (w :: args) Hwords).
  inversion Hwords as [|? ? Hw _]; subst.
  rewrite str_strip_word by apply Hw. reflexivity.
Qed.

Lemma parse_input_spec_witness :
  parse_input (fun s => s) (join [SPACE] [u "add"; u "alice"; u "0123456789"])
  = Ok (u "add", [u "alice"; u "0123456789"]).
Proof.
  apply (parse_input_spec (fun s => s) []).
  repeat constructor; discriminate.
Defined.

(** ** The loop of [main] *)

(** A turn that goes on leaves the book as it was or as one of the three
    changing handlers left it, called with words. *)
Lemma main_step_book (lower : str -> str) (pad_year : bool) (today : datetime)
  (user_input : str) (book : AddressBook) (printed : str) (book' : AddressBook) :
  main_step lower pad_year today user_input book = Ok (Continue printed book') ->
  exists args,
    Forall is_word args
    /\ (book' = book
        \/ book' = snd (add_contact args book)
        \/ book' = snd (change_contact args book)
        \/ book' = snd (add_birthday args book)).
Proof.
  unfold main_step.
  destruct (parse_input lower user_input) as [[command args]|e] eqn:P;
    [|discriminate].
  destruct (parse_input_words lower user_input command args P) as [Hargs _].
  intros H. exists args. split; [exact Hargs|].
  unfold continue in H.
  repeat match type of H with
         | (if ?b then _ else _) = _ => destruct b
         end;
    try discriminate; injection H as _ <-;
    rewrite ?show_phone_snd, ?show_all_snd, ?show_birthday_snd, ?birthdays_snd;
    auto.
Qed.



Lemma main_reachable_reachable (lower : str -> str) (book : AddressBook) :
  main_reachable lower book -> reachable book.
Proof.
  induction 1 as [|pad_year today user_input book printed book' _ IH Hstep];
    [apply reach_new|].
  destruct (main_step_book _ _ _ _ _ _ _ Hstep)
    as (args & _ & [-> | [-> | [-> | ->]]]).
  - exact IH.
  - exact (reach_step book (OpAdd args) IH).
  - exact (reach_step book (OpChange args) IH).
  - exact (reach_step book (OpAddBirthday args) IH).
Qed.

(** A word that [Phone.validate] accepts is exactly ten decimal digits:
    the newline that the pattern lets through is whitespace. *)
Lemma word_phone_ten_digits (t : str) :
  is_word t -> Phone_validate t = Ok t -> ten_digits t.
Proof.
  intros [_ Hw] Hv. apply Phone_validate_accepts in Hv
    as (ds & Hlen & Hds & [-> | ->]); [split; assumption|].
  exfalso. rewrite forallb_app in Hw. apply andb_true_iff in Hw as [_ Hw].
  discriminate Hw.
Qed.

Lemma typed_book_get (book : AddressBook) (k : str) (r : Record_) :
  typed_book book -> dict_get k (data book) = Some r -> typed_entry (k, r).
Proof.
  unfold typed_book. intros Ht G. apply dict_get_in in G.
  rewrite Forall_forall in Ht. exact (Ht _ G).
Qed.

Lemma typed_book_set (book : AddressBook) (k : str) (r : Record_) :
  typed_book book -> typed_entry (k, r) ->
  typed_book (mkAddressBook (dict_set k r (data book))).
Proof.
  unfold typed_book. cbn [data]. intros Ht Hr.
  rewrite Forall_forall in *. intros [k0 r0] Hin.
  apply dict_set_in in Hin as [[-> ->] | Hin]; [exact Hr | exact (Ht _ Hin)].
Qed.

Lemma edit_first_typed (old_phone new_phone : str) (ps l : list Phone) :
  is_word new_phone ->
  Forall (fun p => ten_digits (phone_value p)) ps ->
  edit_first old_phone new_phone ps = Ok (Some l) ->
  Forall (fun p => ten_digits (phone_value p)) l.
Proof.
  intros Hw Hps. revert l. induction Hps as [|p ps Hp Hps IH]; intros l; simpl;
    [discriminate|].
  destruct (str_eqb (phone_value p) old_phone).
  - unfold Phone_init.
    destruct (Phone_validate new_phone) as [v|e] eqn:V; [|discriminate].
    intros [= <-]. constructor; [|exact Hps]. cbn.
    pose proof (Phone_validate_value new_phone v V) as ->.
    exact (word_phone_ten_digits new_phone Hw V).
  - destruct (edit_first old_phone new_phone ps) as [[l'|]|e]; try discriminate.
    intros [= <-]. constructor; [exact Hp | apply IH; reflexivity].
Qed.

Lemma add_contact_typed (args : list str) (book : AddressBook) :
  Forall is_word args -> typed_book book ->
  typed_book (snd (add_contact args book)).
Proof.
  intros Hargs Ht.
  destruct args as [|name [|phone [|x args]]]; try exact Ht.
  inversion Hargs as [|? ? Hname Hrest]; subst.
  inversion Hrest as [|? ? Hphone _]; subst.
  destruct (Phone_validate_cases phone) as [[Hv _] | [Hv _]].
  - rewrite (add_contact_valid book name phone Hv). cbn [snd].
    apply typed_book_set; [exact Ht|].
    pose proof (word_phone_ten_digits phone Hphone Hv) as Hten.
    split; [exact Hname|]. cbn [snd].
    destruct (dict_get name (data book)) as [r|] eqn:G.
    + destruct (typed_book_get book name r Ht G) as [_ Hps].
      cbn. apply Forall_app.
      split; [exact Hps | constructor; [exact Hten | constructor]].
    + cbn. constructor; [exact Hten | constructor].
  - rewrite add_contact_invalid; [exact Ht | congruence].
Qed.

Lemma change_contact_typed (args : list str) (book : AddressBook) :
  Forall is_word args -> typed_book book ->
  typed_book (snd (change_contact args book)).
Proof.
  intros Hargs Ht. unfold change_contact. rewrite snd_input_error.
  destruct args as [|name [|old_phone [|new_phone [|x args]]]]; try exact Ht.
  assert (Hnew : is_word new_phone).
  { rewrite Forall_forall in Hargs. apply Hargs. simpl. auto. }
  run_calls. destruct (dict_get name (data book)) as [r|] eqn:G; [|exact Ht].
  destruct (typed_book_get book name r Ht G) as [Hname Hps]. cbn [fst snd] in *.
  assert (H : typed_book
                (snd (on_record name r (Record_edit_phone old_phone new_phone) book))).
  { unfold on_record, Record_edit_phone, bind, get, lift, modify, ret.
    destruct (edit_first old_phone new_phone (phones r)) as [[l|]|e] eqn:E;
      cbn [snd]; apply typed_book_set; try exact Ht;
      (split; [exact Hname|]); cbn; try exact Hps.
    exact (edit_first_typed _ _ _ l Hnew Hps E). }
  destruct (on_record name r (Record_edit_phone old_phone new_phone) book)
    as [[[|]|e] book']; exact H.
Qed.

Lemma add_birthday_typed (args : list str) (book : AddressBook) :
  typed_book book -> typed_book (snd (add_birthday args book)).
Proof.
  intros Ht. unfold add_birthday. rewrite snd_input_error.
  destruct args as [|name [|text [|x args]]]; try exact Ht.
  run_calls. destruct (dict_get name (data book)) as [r|] eqn:G; [|exact Ht].
  destruct (typed_book_get book name r Ht G) as [Hname Hps]. cbn [fst snd] in *.
  assert (H : typed_book (snd (on_record name r (Record_add_birthday text) book))).
  { unfold on_record, Record_add_birthday, bind, lift, modify.
    destruct (Birthday_init text); cbn [snd]; apply typed_book_set;
      try exact Ht; (split; [exact Hname|]); cbn; exact Hps. }
  destruct (on_record name r (Record_add_birthday text) book)
    as [[[]|e] book']; exact H.
Qed.

Lemma reachable_book_inv (book : AddressBook) : reachable book -> book_inv book.
Proof.
  induction 1 as [|book o _ IH]; [split; constructor | apply run_op_inv, IH].
Qed.

(** In every book the loop of [main] reaches, every name is a word (not
    empty, no whitespace) and the key of its own Record, and every stored
    phone is exactly ten decimal digits: a phone with a trailing newline,
    which [Phone.validate] would accept, cannot arrive through the loop. *)
Theorem main_reachable_typed (lower : str -> str) (book : AddressBook) :
  main_reachable lower book ->
  forall k r, dict_get k (data book) = Some r ->
    is_word k /\ name_value (name r) = k
    /\ forall p, In p (phones r) -> ten_digits (phone_value p).
Proof.
  intros Hmain.
  assert (Hinv : book_inv book)
    by (apply reachable_book_inv, (main_reachable_reachable lower), Hmain).
  assert (Ht : typed_book book).
  { clear Hinv.
    induction Hmain as [|pad_year today user_input book printed book' _ IH Hstep];
      [constructor|].
    destruct (main_step_book _ _ _ _ _ _ _ Hstep)
      as (args & Hargs & [-> | [-> | [-> | ->]]]).
    - exact IH.
    - apply add_contact_typed; assumption.
    - apply change_contact_typed; assumption.
    - apply add_birthday_typed; assumption. }
  intros k r G. destruct (typed_book_get book k r Ht G) as [Hk Hps].
  cbn [fst snd] in *. split; [exact Hk|]. split.
  - apply (keyed_get book); [apply Hinv | exact G].
  - rewrite Forall_forall in Hps. exact Hps.
Qed.

Lemma main_reachable_typed_witness :
  is_word (u "alice").
Proof.
  assert (Hmain : main_reachable (fun s => s)
                    (mkAddressBook
                       [(u "alice",
                         mkRecord (mkName (u "alice"))
                                  [mkPhone (u "0123456789")] None)])).
  { apply (main_turn (fun s => s) false june25_1990
             (u "add alice 0123456789") AddressBook_new (u "Contact added.")).
    - apply main_start.
    - reflexivity. }
  eapply (main_reachable_typed (fun s => s) _ Hmain (u "alice")).
  reflexivity.
Defined.

Lemma add_record_then_find_witness :
  dict_keys (data (snd (AddressBook_add_record alice book_carol_bob)))
  = dict_keys (data book_carol_bob) ++ [u "alice"].
Proof.
  apply (add_record_then_find book_carol_bob alice). reflexivity.
Defined.

(** ** The whole of what [Phone.validate] accepts *)

(** [Phone.validate] accepts a text exactly when it is ten characters that
    [\d] matches, followed by nothing or by one newline; it returns the
    text as it came, newline included, and raises its one error for every
    other text. *)
Theorem Phone_validate_full (value : str) :
  (Phone_validate value = Ok value <->
   exists digits,
     ten_digits digits /\ (value = digits \/ value = digits ++ [NEWLINE]))
  /\ (Phone_validate value = Ok value
      \/ Phone_validate value = Raise phone_error).
Proof.
  split.
  - assert (H1 : Phone_validate value = Ok value <->
                 re_match phone_pattern value = true).
    { destruct (Phone_validate_cases value) as [[Hv Hm] | [Hv Hm]];
        rewrite Hv, Hm; split; try discriminate; auto. }
    rewrite H1.
    change (re_match phone_pattern value)
      with (re_match_here (repeat Digit 10 ++ [Eol]) true value).
    rewrite digits_then_eol. unfold ten_digits.
    split; intros (ds & H); exists ds; tauto.
  - destruct (Phone_validate_cases value) as [[H _] | [H _]]; auto.
Qed.

(** ** Where [add] puts a contact *)

(** [add] with a valid phone and a new name puts a Record with that name,
    that one phone and no birthday at the end of the book; with a name
    already there it keeps the order of the book and the Record's name and
    birthday, and only appends the phone. *)
Theorem add_contact_insertion_order (book : AddressBook) (name phone : str) :
  Phone_validate phone = Ok phone ->
  (dict_get name (data book) = None ->
   data (snd (add_contact [name; phone] book))
   = data book ++ [(name, mkRecord (mkName name) [mkPhone phone] None)])
  /\ (forall r,
        dict_get name (data book) = Some r ->
        dict_keys (data (snd (add_contact [name; phone] book)))
        = dict_keys (data book)
        /\ dict_get name (data (snd (add_contact [name; phone] book)))
           = Some (set_phones (phones r ++ [mkPhone phone]) r)).
Proof.
  intros Hv. rewrite (add_contact_valid book name phone Hv). cbn [snd data].
  split.
  - intros G. rewrite G. apply dict_set_absent. exact G.
  - intros r G. rewrite G. split.
    + apply dict_keys_set_present with (v0 := r). exact G.
    + apply dict_get_set_same.
Qed.

Lemma add_contact_insertion_order_witness :
  data (snd (add_contact [u "dave"; u "0001112222"] book_carol_bob))
  = data book_carol_bob
    ++ [(u "dave", mkRecord (mkName (u "dave")) [mkPhone (u "0001112222")] None)].
Proof.
  assert (Hv : Phone_validate (u "0001112222") = Ok (u "0001112222"))
    by reflexivity.
  apply (add_contact_insertion_order book_carol_bob (u "dave")
           (u "0001112222") Hv).
  reflexivity.
Defined.
